(** * melody-cipher: the base-8 and base-N note codecs of [decoder.js]

    A shallow embedding of [encodeBase8], [decodeBase12] and [decodeBase8]
    together with the JavaScript built-ins they call, and the properties of
    the codecs proved against it. *)

From Stdlib Require Import NArith ZArith List Lia Bool Ascii String.
From stdpp Require Import base option list gmap.

Local Open Scope N_scope.

(* ===================================================================== *)
(** ** Strings *)
(* ===================================================================== *)

(** A JavaScript string is a sequence of UTF-16 code units.  A code unit is
    a number below 65536; [text[i]] is the one-unit string at position [i]
    and [charCodeAt(0)] of it is the unit itself. *)
Abbreviation jsstring := (list N).

Definition wf_unit (c : N) : Prop := c < 65536.

(** String literals of the source, written in ASCII. *)
Definition lit (s : string) : jsstring :=
  List.map N_of_ascii (list_ascii_of_string s).

Definition SPACE : N := 32.
Definition NEWLINE : N := 10.
Definition SLASH : N := 47.
Definition QUESTION : N := 63.

(** The characters matched by [\s] and removed by [trim]: ECMAScript's
    WhiteSpace and LineTerminator code points. *)
Definition is_ws (c : N) : bool :=
  ((9 <=? c) && (c <=? 13)) || (c =? 32) || (c =? 160) || (c =? 5760)
  || ((8192 <=? c) && (c <=? 8202)) || (c =? 8232) || (c =? 8233)
  || (c =? 8239) || (c =? 8287) || (c =? 12288) || (c =? 65279).

(** [String.prototype.trim]. *)
Fixpoint trimStart (s : jsstring) : jsstring :=
  match s with
  | [] => []
  | c :: r => if is_ws c then trimStart r else s
  end.

Definition trimEnd (s : jsstring) : jsstring := rev (trimStart (rev s)).

Definition trim (s : jsstring) : jsstring := trimEnd (trimStart s).

(** [s.split('\n')]: the pieces between the newlines; never an empty
    array, and one empty piece for the empty string. *)
Fixpoint split_nl (s : jsstring) : list jsstring :=
  match s with
  | [] => [[]]
  | c :: r =>
      if c =? NEWLINE then [] :: split_nl r
      else match split_nl r with
           | l :: ls => (c :: l) :: ls
           | [] => [[c]]
           end
  end.

(** [s.split(/\s+/)]: the pieces between the maximal runs of whitespace.
    A leading or trailing run leaves an empty piece at that end, and the
    empty string gives one empty piece.  [inws] tells that the previous unit was part
    of the separator being consumed. *)
Fixpoint split_ws_from (inws : bool) (s : jsstring) : list jsstring :=
  match s with
  | [] => [[]]
  | c :: r =>
      if is_ws c then
        if inws then split_ws_from true r else [] :: split_ws_from true r
      else match split_ws_from false r with
           | l :: ls => (c :: l) :: ls
           | [] => [[c]]
           end
  end.

Definition split_ws (s : jsstring) : list jsstring := split_ws_from false s.

(** [t => t.length > 0] *)
Definition nonempty (t : jsstring) : bool :=
  match t with [] => false | _ :: _ => true end.

(** [Array.prototype.join]: an [undefined] element is rendered as the empty
    string. *)
Definition elem_text (o : option jsstring) : jsstring :=
  match o with Some t => t | None => [] end.

Fixpoint join (sep : jsstring) (l : list (option jsstring)) : jsstring :=
  match l with
  | [] => []
  | [x] => elem_text x
  | x :: r => elem_text x ++ sep ++ join sep r
  end.

(** [Array.prototype.forEach] with the state the callback updates threaded
    through: the callback receives the element and its index. *)
Fixpoint forEach {A S : Type} (f : A -> N -> S -> S) (l : list A) (i : N) (s : S) : S :=
  match l with
  | [] => s
  | x :: r => forEach f r (N.succ i) (f x i s)
  end.

(* ===================================================================== *)
(** ** Values and the note table *)
(* ===================================================================== *)

(** The values that the decoders' arithmetic can meet.  [JObj] stands for a
    function or object that a lookup finds on [Object.prototype]; [JStr] for
    the text that [+] builds when an operand is such an object (for instance
    ["24function Object() { [native code] }"]), which is no numeric
    literal.  Numbers are the non-negative integers that indices produce;
    the model is exact while they stay below 2^53, which they do for an
    alphabet of [B] notes with [B*B <= 2^53]: the statements that give the
    value of [index(hi)*B + index(lo)] beyond the range of a character
    code carry that bound. *)
Inductive jsval : Type :=
  | JUndefined
  | JNum (n : N)
  | JNaN
  | JObj
  | JStr.

Definition is_undefined (v : jsval) : bool :=
  match v with JUndefined => true | _ => false end.

(** [v * k] for a number [k]. *)
Definition js_mul (v : jsval) (k : N) : jsval :=
  match v with
  | JNum a => JNum (a * k)
  | _ => JNaN
  end.

(** [a + b]: numeric addition unless an operand is an object or a string,
    in which case the operands are concatenated as text. *)
Definition js_add (a b : jsval) : jsval :=
  match a, b with
  | JNum x, JNum y => JNum (x + y)
  | JObj, _ | _, JObj | JStr, _ | _, JStr => JStr
  | _, _ => JNaN
  end.

(** [String.fromCharCode(v)]: ToUint16 of ToNumber of the argument. *)
Definition fromCharCode (v : jsval) : N :=
  match v with
  | JNum n => n mod 65536
  | _ => 0
  end.

(** The property names that every object literal inherits from
    [Object.prototype]; each of them holds a function or an object. *)
Definition object_prototype_keys : list jsstring :=
  List.map lit
    [ "constructor"; "hasOwnProperty"; "isPrototypeOf"; "propertyIsEnumerable";
      "toLocaleString"; "toString"; "valueOf"; "__proto__";
      "__defineGetter__"; "__defineSetter__"; "__lookupGetter__";
      "__lookupSetter__" ]%string.

Definition proto_key : jsstring := lit "__proto__".

(** [noteMap[note] = i] on an object created by [{}]: the key [__proto__]
    reaches the inherited setter, which ignores a number and creates no
    property; every other key becomes an own property. *)
Definition noteMap_set (m : gmap jsstring N) (note : jsstring) (i : N) : gmap jsstring N :=
  if bool_decide (note = proto_key) then m else <[note := i]> m.

(** [noteMap[tok]]: the own property when there is one, else what the
    prototype holds under that name, else [undefined]. *)
Definition noteMap_get (m : gmap jsstring N) (tok : jsstring) : jsval :=
  match m !! tok with
  | Some i => JNum i
  | None => if bool_decide (tok ∈ object_prototype_keys) then JObj else JUndefined
  end.

(** The codecs read only [config.notes]; [config.colors] is read by the
    renderer alone. *)
Record CipherConfig : Type := { notes : list jsstring }.

(** [config.notes.forEach((note,i) => { noteMap[note] = i; })] *)
Definition build_noteMap (config : CipherConfig) : gmap jsstring N :=
  forEach (fun note i m => noteMap_set m note i) (notes config) 0 ∅.

(* ===================================================================== *)
(** ** encodeBase8 *)
(* ===================================================================== *)

(** [/[A-Za-z]/.test(ch)] *)
Definition is_letter (c : N) : bool :=
  ((65 <=? c) && (c <=? 90)) || ((97 <=? c) && (c <=? 122)).

(** [toUpperCase] on the ASCII range, where the letter branch uses it. *)
Definition upper_unit (c : N) : N :=
  if (97 <=? c) && (c <=? 122) then c - 32 else c.

Definition toUpperCase (s : jsstring) : jsstring := List.map upper_unit s.

(** [code.toString(8)]: most significant digit first, no leading zero
    except for 0 itself.  The fuel counts the binary digits of [n], which
    bounds the number of octal ones. *)
Fixpoint octal_digits (fuel : nat) (n : N) (acc : jsstring) : jsstring :=
  match fuel with
  | O => acc
  | S f =>
      let acc' := (48 + n mod 8) :: acc in
      if n / 8 =? 0 then acc' else octal_digits f (n / 8) acc'
  end.

Definition toString8 (n : N) : jsstring :=
  octal_digits (S (N.to_nat (N.log2 n))) n [].

(** The number that a string of octal digits denotes. *)
Definition octal_value (s : jsstring) : N :=
  fold_left (fun acc d => acc * 8 + (d - 48)) s 0.

(** [s.padStart(3, '0')] *)
Definition padStart3 (s : jsstring) : jsstring :=
  repeat 48 (3 - length s)%nat ++ s.

(** [parseInt(x, 8)] of a one-unit string or of [undefined]; [None] is NaN. *)
Definition parseInt8 (x : option N) : option nat :=
  match x with
  | Some d => if (48 <=? d) && (d <=? 55) then Some (N.to_nat (d - 48)) else None
  | None => None
  end.

(** [config.notes[k]]: [undefined] when [k] is NaN or past the end. *)
Definition note_at (config : CipherConfig) (k : option nat) : option jsstring :=
  match k with
  | Some i => notes config !! i
  | None => None
  end.

(** The loop [for (j = 0; j < oct.length; j += 2)]: [oct[j+1]] is
    [undefined] when [j] is the last position. *)
Fixpoint octal_chunks (config : CipherConfig) (oct : jsstring) : list (option jsstring) :=
  match oct with
  | [] => []
  | [h] =>
      [note_at config (parseInt8 (Some h)); note_at config (parseInt8 None)]
  | h :: l :: r =>
      note_at config (parseInt8 (Some h))
      :: note_at config (parseInt8 (Some l)) :: octal_chunks config r
  end.

(** What one iteration of the outer loop pushes. *)
Definition encode_char (config : CipherConfig) (ch : N) : list (option jsstring) :=
  if ch =? SPACE then [Some [SLASH]]
  else if ch =? NEWLINE then [Some [NEWLINE]]
  else if is_letter ch then
    let idx := (Z.of_N (upper_unit ch) - 65)%Z in
    if ((0 <=? idx) && (idx <? 26))%Z then
      let hi := (idx / 8)%Z in
      let lo := (idx mod 8)%Z in
      [note_at config (Some (Z.to_nat hi)); note_at config (Some (Z.to_nat lo))]
    else []
  else
    let code := ch in
    let oct := padStart3 (toString8 code) in
    octal_chunks config oct.

Fixpoint encode_loop (config : CipherConfig) (text : jsstring)
    (acc : list (option jsstring)) : list (option jsstring) :=
  match text with
  | [] => acc
  | ch :: r => encode_loop config r (acc ++ encode_char config ch)
  end.

Definition encodeBase8 (config : CipherConfig) (text : jsstring) : list (option jsstring) :=
  encode_loop config text [].

(* ===================================================================== *)
(** ** decodeBase12 and decodeBase8 *)
(* ===================================================================== *)

(** [!tok]: true of [undefined] and of the empty string. *)
Definition falsy (tok : option jsstring) : bool :=
  match tok with
  | None | Some [] => true
  | Some (_ :: _) => false
  end.

(** What one iteration of the loop of [decodeBase12] appends. *)
Definition unit12 (nm : gmap jsstring N) (B : N) (hiTok loTok : option jsstring) : jsstring :=
  if falsy hiTok || falsy loTok then [QUESTION]
  else
    let hi := noteMap_get nm (elem_text hiTok) in
    let lo := noteMap_get nm (elem_text loTok) in
    if is_undefined hi || is_undefined lo then [QUESTION]
    else
      let code := js_add (js_mul hi B) lo in
      [fromCharCode code].

(** [for (let i = 0; i < tokens.length; i += 2)] of [decodeBase12], on the
    tokens from position [i] on. *)
Fixpoint walk12 (nm : gmap jsstring N) (B : N) (tokens : list jsstring) (out : jsstring) : jsstring :=
  match tokens with
  | [] => out
  | hiTok :: rest =>
      match rest with
      | [] => out ++ unit12 nm B (Some hiTok) None
      | loTok :: rest' =>
          walk12 nm B rest' (out ++ unit12 nm B (Some hiTok) (Some loTok))
      end
  end.

Definition decodeBase12 (config : CipherConfig) (noteStr : jsstring) : jsstring :=
  let noteMap := build_noteMap config in
  let lines := split_nl (trim noteStr) in
  forEach
    (fun line li out =>
       let out := if 0 <? li then out ++ [NEWLINE] else out in
       let tokens := split_ws (trim line) in
       walk12 noteMap (N.of_nat (length (notes config))) tokens out)
    lines 0 [].

(** [for (let i = 0; i < tokens.length;)] of [decodeBase8], on the tokens
    from position [i] on. *)
Fixpoint walk8 (nm : gmap jsstring N) (tokens : list jsstring) (out : jsstring) : jsstring :=
  match tokens with
  | [] => out
  | tok :: rest =>
      if bool_decide (tok = [SLASH]) then walk8 nm rest (out ++ [SPACE])
      else
        match rest with
        | [] => out ++ [QUESTION]
        | loTok :: rest' =>
            if falsy (Some tok) || falsy (Some loTok) then out ++ [QUESTION]
            else
              let hi := noteMap_get nm tok in
              let lo := noteMap_get nm loTok in
              if is_undefined hi || is_undefined lo then
                walk8 nm rest' (out ++ [QUESTION])
              else
                match js_add (js_mul hi 8) lo with
                | JNum val =>
                    if (0 <=? val) && (val <? 26)
                    then walk8 nm rest' (out ++ [fromCharCode (JNum (65 + val))])
                    else walk8 nm rest' (out ++ [QUESTION])
                | _ => walk8 nm rest' (out ++ [QUESTION])
                end
        end
  end.

(** [line.trim().split(/\s+/).filter(t => t.length > 0)] *)
Definition tokens8 (line : jsstring) : list jsstring :=
  List.filter nonempty (split_ws (trim line)).

Definition decodeBase8 (config : CipherConfig) (noteStr : jsstring) : jsstring :=
  let noteMap := build_noteMap config in
  let lines := split_nl noteStr in
  forEach
    (fun line li out =>
       let out := if 0 <? li then out ++ [NEWLINE] else out in
       walk8 noteMap (tokens8 line) out)
    lines 0 [].

(** The text a line contributes to the output of each decoder, after the
    separator, and the lines of the output put together again. *)
Definition decodeLine8 (config : CipherConfig) (line : jsstring) : jsstring :=
  walk8 (build_noteMap config) (tokens8 line) [].

Definition decodeLine12 (config : CipherConfig) (line : jsstring) : jsstring :=
  walk12 (build_noteMap config) (N.of_nat (length (notes config)))
    (split_ws (trim line)) [].

Definition join_lines (ls : list jsstring) : jsstring :=
  join [NEWLINE] (List.map Some ls).

(** The callback of [lines.forEach] in both decoders: a newline before
    every line but the first, then what the line decodes to. *)
Definition line_step (f : jsstring -> jsstring) (line : jsstring) (li : N)
    (out : jsstring) : jsstring :=
  (if 0 <? li then out ++ [NEWLINE] else out) ++ f line.

(** The walk of [decodeBase8] reaches the end of [tokens] by whole steps:
    one token for a ['/'], two for anything else. *)
Fixpoint whole_steps8 (tokens : list jsstring) : bool :=
  match tokens with
  | [] => true
  | tok :: rest =>
      if bool_decide (tok = [SLASH]) then whole_steps8 rest
      else match rest with
           | [] => false
           | _ :: rest' => whole_steps8 rest'
           end
  end.

(** A note that survives joining by spaces and splitting at whitespace. *)
Definition is_token (t : jsstring) : bool :=
  nonempty t && forallb (fun c => negb (is_ws c)) t.

(** The alphabet position that [encodeBase8] gives a letter. *)
Definition letter_index (c : N) : N := upper_unit c - 65.

(** A note that the letter round trip can carry: a token that is neither
    the space marker nor the one key that an object literal cannot hold. *)
Definition note_ok (t : jsstring) : bool :=
  is_token t && negb (bool_decide (t = [SLASH])) && negb (bool_decide (t = proto_key)).

(** A note that a pair of the base-N decoder can carry. *)
Definition note_ok12 (t : jsstring) : bool :=
  is_token t && negb (bool_decide (t = proto_key)).

(** A string that [trim] leaves alone: it begins and ends with a unit that
    is not whitespace. *)
Definition starts_tight (s : jsstring) : bool :=
  match s with
  | [] => false
  | c :: _ => negb (is_ws c)
  end.

Definition ends_tight (s : jsstring) : bool := starts_tight (rev s).

Definition count_nl (s : jsstring) : nat :=
  length (List.filter (fun c => c =? NEWLINE) s).

(** The characters that [encodeBase8] sends through its first three
    branches: a letter, a space or a newline.  Every other character takes
    the octal branch. *)
Definition is_plain (c : N) : bool :=
  is_letter c || (c =? SPACE) || (c =? NEWLINE).

Definition octal_path (c : N) : bool :=
  negb ((c =? SPACE) || (c =? NEWLINE) || is_letter c).

(** The codes whose padded octal text has an odd number of digits. *)
Definition odd_octal (c : N) : bool :=
  (c <? 512) || ((4096 <=? c) && (c <? 32768)).

(** The tokens of a line read off directly: the maximal runs of units that
    are not whitespace.  [cur] is the run being read. *)
Definition flush (cur : jsstring) : list jsstring :=
  match cur with [] => [] | _ :: _ => [cur] end.

Fixpoint words_from (cur : jsstring) (s : jsstring) : list jsstring :=
  match s with
  | [] => flush cur
  | c :: r =>
      if is_ws c then flush cur ++ words_from [] r
      else words_from (cur ++ [c]) r
  end.

(** [cur] put in front of the first piece of a split. *)
Definition prefix_piece (cur : jsstring) (pieces : list jsstring) : list jsstring :=
  match pieces with
  | [] => []
  | h :: rest => (cur ++ h) :: rest
  end.

(** An array of the encoder holds an [undefined] element. *)
Definition has_undefined (l : list (option jsstring)) : bool :=
  existsb (fun o => match o with None => true | Some _ => false end) l.

(** The units that [decodeBase8] can append to its output. *)
Definition is_output8 (c : N) : bool :=
  (c =? SPACE) || (c =? QUESTION) || (c =? NEWLINE) || ((65 <=? c) && (c <=? 90)).

(** The position of the last note equal to [t]: the index that the table
    built by [forEach] ends up holding for it. *)
Fixpoint last_index (t : jsstring) (l : list jsstring) : option nat :=
  match l with
  | [] => None
  | x :: r =>
      match last_index t r with
      | Some k => Some (S k)
      | None => if bool_decide (x = t) then Some 0%nat else None
      end
  end.

(** The two notes that stand for [code] in base [B], as the base-N decoder
    reads them. *)
Definition pair_of_code (config : CipherConfig) (code : N) : list (option jsstring) :=
  [ notes config !! N.to_nat (code / N.of_nat (length (notes config)));
    notes config !! N.to_nat (code mod N.of_nat (length (notes config))) ].

(* ===================================================================== *)
(** ** Sample configurations *)
(* ===================================================================== *)

Definition major8 : CipherConfig :=
  {| notes := List.map lit ["C"; "D"; "E"; "F"; "G"; "A"; "B"; "H"]%string |}.

(** Eight distinct notes, the first of which is the space marker. *)
Definition slash8 : CipherConfig :=
  {| notes := List.map lit ["/"; "D"; "E"; "F"; "G"; "A"; "B"; "H"]%string |}.

(** Eight distinct notes whose first is the empty string, has a space
    inside, or is the key that an object literal cannot hold. *)
Definition empty8 : CipherConfig :=
  {| notes := [] :: List.map lit ["D"; "E"; "F"; "G"; "A"; "B"; "H"]%string |}.

Definition inner8 : CipherConfig :=
  {| notes := List.map lit ["C C"; "D"; "E"; "F"; "G"; "A"; "B"; "H"]%string |}.

Definition proto8 : CipherConfig :=
  {| notes := List.map lit ["__proto__"; "D"; "E"; "F"; "G"; "A"; "B"; "H"]%string |}.

(** Two distinct notes, one of them with a space inside. *)
Definition spaced2 : CipherConfig :=
  {| notes := List.map lit ["C"; "D E"]%string |}.


(* ===================================================================== *)
(** ** Loops and lines *)
(* ===================================================================== *)

Section Walks.

Variable nm : gmap jsstring N.
Variable B : N.

Lemma list_ind2 {A : Type} (P : list A -> Prop) :
  P [] -> (forall x, P [x]) ->
  (forall x y l, P l -> P (y :: l) -> P (x :: y :: l)) ->
  forall l, P l.
Proof.
  intros Hnil Hone Hstep l.
  assert (H : P l /\ forall x, P (x :: l)).
  { induction l as [|y l [IH1 IH2]]; split; auto. }
  exact (proj1 H).
Qed.

Lemma walk8_out tokens : forall out, walk8 nm tokens out = out ++ walk8 nm tokens [].
Proof.
  induction tokens as [|x|x y l IHl IHyl] using list_ind2; intros out.
  - simpl. now rewrite app_nil_r.
  - simpl. case_bool_decide; reflexivity.
  - destruct (decide (x = [SLASH])) as [Hx|Hx].
    { remember (y :: l) as r. cbn [walk8]. rewrite !bool_decide_eq_true_2 by exact Hx.
      rewrite IHyl, (IHyl ([] ++ [SPACE])). now rewrite app_assoc. }
    cbn [walk8]. rewrite !bool_decide_eq_false_2 by exact Hx.
    destruct (falsy (Some x) || falsy (Some y)); [reflexivity|].
    destruct (is_undefined (noteMap_get nm x) || is_undefined (noteMap_get nm y)).
    { rewrite IHl, (IHl ([] ++ _)). now rewrite app_assoc. }
    destruct (js_add (js_mul (noteMap_get nm x) 8) (noteMap_get nm y));
      try (rewrite IHl, (IHl ([] ++ _)); now rewrite app_assoc).
    destruct ((0 <=? n) && (n <? 26));
      rewrite IHl, (IHl ([] ++ _)); now rewrite app_assoc.
Qed.

Lemma walk12_out tokens : forall out, walk12 nm B tokens out = out ++ walk12 nm B tokens [].
Proof.
  induction tokens as [|x|x y l IHl IHyl] using list_ind2; intros out.
  - simpl. now rewrite app_nil_r.
  - reflexivity.
  - cbn [walk12]. rewrite IHl, (IHl ([] ++ _)). now rewrite app_assoc.
Qed.

Lemma walk8_app pre rest :
  whole_steps8 pre = true -> Forall (fun t => nonempty t = true) pre ->
  forall out, walk8 nm (pre ++ rest) out = walk8 nm rest (walk8 nm pre out).
Proof.
  induction pre as [|x|x y l IHl IHyl] using list_ind2; intros Hw Hne out.
  - reflexivity.
  - simpl in Hw |- *. case_bool_decide; [reflexivity | discriminate].
  - destruct (decide (x = [SLASH])) as [Hx|Hx].
    { change ((x :: y :: l) ++ rest) with (x :: (y :: l) ++ rest).
      remember (y :: l) as r. cbn [whole_steps8] in Hw. cbn [walk8].
      rewrite !bool_decide_eq_true_2 in * by exact Hx.
      apply IHyl; [exact Hw | now inversion Hne]. }
    cbn [whole_steps8] in Hw. cbn [walk8 app].
    rewrite !bool_decide_eq_false_2 in * by exact Hx.
    inversion Hne as [|? ? Hnx Hne']; subst. inversion Hne' as [|? ? Hny Hl]; subst.
    destruct x; [discriminate|]. destruct y; [discriminate|]. cbn [falsy orb].
    destruct (is_undefined _ || is_undefined _); [now apply IHl|].
    destruct (js_add _ _); try now apply IHl.
    destruct ((0 <=? n1) && (n1 <? 26)); now apply IHl.
Qed.

Lemma walk12_app pre rest :
  Nat.even (length pre) = true ->
  forall out, walk12 nm B (pre ++ rest) out = walk12 nm B rest (walk12 nm B pre out).
Proof.
  induction pre as [|x|x y l IHl IHyl] using list_ind2; intros He out.
  - reflexivity.
  - discriminate.
  - cbn [walk12 app]. apply IHl. exact He.
Qed.

End Walks.

Lemma forEach_ext {A S : Type} (f g : A -> N -> S -> S) (l : list A) :
  (forall x i s, f x i s = g x i s) ->
  forall i s, forEach f l i s = forEach g l i s.
Proof.
  intros Hfg. induction l as [|x l IH]; intros i s; simpl.
  - reflexivity.
  - rewrite Hfg. apply IH.
Qed.

Lemma join_cons (sep : jsstring) (x : option jsstring) (r : list (option jsstring)) :
  join sep (x :: r) = elem_text x ++ concat (List.map (fun y => sep ++ elem_text y) r).
Proof.
  revert x. induction r as [|y r IH]; intros x.
  - simpl. now rewrite app_nil_r.
  - change (join sep (x :: y :: r)) with (elem_text x ++ sep ++ join sep (y :: r)).
    rewrite IH. simpl. now rewrite <- app_assoc.
Qed.

Lemma join_lines_cons (l : jsstring) (r : list jsstring) :
  join_lines (l :: r) = l ++ concat (List.map (fun y => NEWLINE :: y) r).
Proof.
  unfold join_lines. cbn [List.map]. rewrite join_cons, List.map_map. reflexivity.
Qed.

Section Lines.

Variable f : jsstring -> jsstring.

Lemma forEach_later_lines (ls : list jsstring) :
  forall i out, 0 < i ->
    forEach (line_step f) ls i out
    = out ++ concat (List.map (fun l => NEWLINE :: f l) ls).
Proof.
  induction ls as [|l ls IH]; intros i out Hi; simpl.
  - now rewrite app_nil_r.
  - rewrite IH by lia. unfold line_step.
    replace (0 <? i) with true by (symmetry; apply N.ltb_lt; exact Hi).
    now rewrite <- !app_assoc.
Qed.

Lemma forEach_lines (ls : list jsstring) :
  forEach (line_step f) ls 0 [] = join_lines (List.map f ls).
Proof.
  destruct ls as [|l ls]; [reflexivity|].
  cbn [forEach List.map]. rewrite forEach_later_lines by lia.
  rewrite join_lines_cons, List.map_map. reflexivity.
Qed.

End Lines.

Lemma decodeBase8_lines (config : CipherConfig) (noteStr : jsstring) :
  decodeBase8 config noteStr
  = join_lines (List.map (decodeLine8 config) (split_nl noteStr)).
Proof.
  unfold decodeBase8. rewrite <- forEach_lines.
  apply forEach_ext. intros line li out. unfold line_step, decodeLine8.
  now rewrite walk8_out.
Qed.

Lemma decodeBase12_lines (config : CipherConfig) (noteStr : jsstring) :
  decodeBase12 config noteStr
  = join_lines (List.map (decodeLine12 config) (split_nl (trim noteStr))).
Proof.
  unfold decodeBase12. rewrite <- forEach_lines.
  apply forEach_ext. intros line li out. unfold line_step, decodeLine12.
  now rewrite walk12_out.
Qed.

(** *** Splitting into lines *)

Lemma split_nl_nonempty (s : jsstring) : split_nl s <> [].
Proof.
  destruct s as [|c r]; simpl; [discriminate|].
  destruct (c =? NEWLINE); [discriminate|]. destruct (split_nl r); discriminate.
Qed.

Lemma split_nl_length (s : jsstring) : length (split_nl s) = S (count_nl s).
Proof.
  unfold count_nl. induction s as [|c r IH]; simpl; [reflexivity|].
  destruct (c =? NEWLINE); simpl.
  - now rewrite IH.
  - destruct (split_nl r) eqn:E; simpl in *; [discriminate | exact IH].
Qed.

Lemma split_nl_no_newline (s : jsstring) :
  count_nl s = 0%nat -> split_nl s = [s].
Proof.
  unfold count_nl. induction s as [|c r IH]; simpl; [reflexivity|].
  destruct (c =? NEWLINE); simpl; [discriminate|].
  intros H. now rewrite IH.
Qed.

Lemma split_nl_app (a b : jsstring) :
  count_nl a = 0%nat -> split_nl (a ++ NEWLINE :: b) = a :: split_nl b.
Proof.
  unfold count_nl. induction a as [|c r IH]; simpl; [reflexivity|].
  destruct (c =? NEWLINE); simpl; [discriminate|].
  intros H. now rewrite IH.
Qed.

Lemma count_nl_app (a b : jsstring) : count_nl (a ++ b) = (count_nl a + count_nl b)%nat.
Proof. unfold count_nl. now rewrite List.filter_app, length_app. Qed.

Lemma count_nl_join_lines (ls : list jsstring) :
  Forall (fun l => count_nl l = 0%nat) ls ->
  count_nl (join_lines ls) = pred (length ls).
Proof.
  destruct ls as [|l ls]; [reflexivity|].
  intros H. inversion H as [|? ? Hl Hls]; subst.
  rewrite join_lines_cons, count_nl_app, Hl. simpl. clear H Hl.
  induction Hls as [|y ls Hy Hls IH]; [reflexivity|].
  cbn [List.map concat length].
  change ((NEWLINE :: y) ++ ?t) with ([NEWLINE] ++ y ++ t).
  rewrite !count_nl_app, Hy, IH. reflexivity.
Qed.

Lemma count_nl_snoc (out : jsstring) (c : N) :
  c <> NEWLINE -> count_nl (out ++ [c]) = count_nl out.
Proof.
  intros Hc. rewrite count_nl_app. unfold count_nl at 2. cbn [List.filter].
  replace (c =? NEWLINE) with false by (symmetry; now apply N.eqb_neq).
  simpl. lia.
Qed.

Lemma walk8_count_nl (nm : gmap jsstring N) (tokens : list jsstring) :
  forall out, count_nl (walk8 nm tokens out) = count_nl out.
Proof.
  induction tokens as [|x|x y l IHl IHyl] using list_ind2; intros out.
  - reflexivity.
  - cbn [walk8]. case_bool_decide; now rewrite count_nl_snoc.
  - destruct (decide (x = [SLASH])) as [Hx|Hx].
    { remember (y :: l) as r. cbn [walk8]. rewrite bool_decide_eq_true_2 by exact Hx.
      now rewrite IHyl, count_nl_snoc. }
    cbn [walk8]. rewrite bool_decide_eq_false_2 by exact Hx.
    destruct (falsy (Some x) || falsy (Some y)).
    { now rewrite count_nl_snoc. }
    destruct (is_undefined _ || is_undefined _).
    { now rewrite IHl, count_nl_snoc. }
    destruct (js_add _ _); try (now rewrite IHl, count_nl_snoc).
    destruct ((0 <=? n) && (n <? 26)) eqn:E; rewrite IHl.
    + apply andb_true_iff in E as [_ E]. apply N.ltb_lt in E.
      apply count_nl_snoc. cbn [fromCharCode].
      rewrite N.mod_small by lia. unfold NEWLINE. lia.
    + now rewrite count_nl_snoc.
Qed.

(** *** The note table *)

Lemma noteMap_set_other (m : gmap jsstring N) (note t : jsstring) (i : N) :
  t <> note -> noteMap_set m note i !! t = m !! t.
Proof.
  intros Hne. unfold noteMap_set. case_bool_decide; [reflexivity|].
  apply lookup_insert_ne. congruence.
Qed.

Lemma noteMap_set_same (m : gmap jsstring N) (t : jsstring) (i : N) :
  t <> proto_key -> noteMap_set m t i !! t = Some i.
Proof.
  intros Hne. unfold noteMap_set. rewrite bool_decide_eq_false_2 by exact Hne.
  apply lookup_insert_eq.
Qed.

Lemma forEach_set_notin (l : list jsstring) (t : jsstring) :
  t ∉ l ->
  forall i (m : gmap jsstring N),
    forEach (fun note i m => noteMap_set m note i) l i m !! t = m !! t.
Proof.
  induction l as [|x l IH]; intros Hnin i m; simpl; [reflexivity|].
  apply not_elem_of_cons in Hnin as [Hx Hl].
  rewrite IH by exact Hl. now apply noteMap_set_other.
Qed.

Lemma forEach_set_lookup (l : list jsstring) (t : jsstring) :
  NoDup l -> t <> proto_key ->
  forall (k : nat) i (m : gmap jsstring N),
    l !! k = Some t ->
    forEach (fun note i m => noteMap_set m note i) l i m !! t = Some (i + N.of_nat k).
Proof.
  intros Hnd Hp. induction Hnd as [|x l Hx Hnd IH]; intros k i m Hk.
  - discriminate.
  - destruct k as [|k]; simpl in Hk |- *.
    + injection Hk as ->. rewrite forEach_set_notin by exact Hx.
      rewrite noteMap_set_same by exact Hp. f_equal. lia.
    + rewrite (IH k) by exact Hk. f_equal. lia.
Qed.

Lemma noteMap_get_note (config : CipherConfig) (k : nat) (t : jsstring) :
  NoDup (notes config) -> notes config !! k = Some t -> t <> proto_key ->
  noteMap_get (build_noteMap config) t = JNum (N.of_nat k).
Proof.
  intros Hnd Hk Hp. unfold noteMap_get, build_noteMap.
  now rewrite (forEach_set_lookup _ _ Hnd Hp k 0 ∅ Hk).
Qed.

Lemma noteMap_get_unknown (config : CipherConfig) (t : jsstring) :
  t ∉ notes config ->
  forall n, noteMap_get (build_noteMap config) t <> JNum n.
Proof.
  intros Hnin n. unfold noteMap_get, build_noteMap.
  rewrite forEach_set_notin by exact Hnin. rewrite lookup_empty.
  case_bool_decide; discriminate.
Qed.

(** *** Single steps of the walks *)

Lemma walk8_slash (nm : gmap jsstring N) (rest : list jsstring) (out : jsstring) :
  walk8 nm ([SLASH] :: rest) out = walk8 nm rest (out ++ [SPACE]).
Proof. destruct rest; reflexivity. Qed.

Lemma walk8_single (nm : gmap jsstring N) (tok out : jsstring) :
  tok <> [SLASH] -> walk8 nm [tok] out = out ++ [QUESTION].
Proof. intros H. cbn [walk8]. now rewrite bool_decide_eq_false_2. Qed.

Lemma walk8_pair_placeholder (nm : gmap jsstring N) (hi lo : jsstring)
    (rest : list jsstring) (out : jsstring) :
  hi <> [SLASH] -> nonempty hi = true -> nonempty lo = true ->
  (forall a b, noteMap_get nm hi = JNum a -> noteMap_get nm lo = JNum b -> 26 <= a * 8 + b) ->
  walk8 nm (hi :: lo :: rest) out = walk8 nm rest (out ++ [QUESTION]).
Proof.
  intros Hs Hh Hl Hval. cbn [walk8]. rewrite bool_decide_eq_false_2 by exact Hs.
  destruct hi; [discriminate|]. destruct lo; [discriminate|]. cbn [falsy orb].
  destruct (is_undefined _ || is_undefined _); [reflexivity|].
  destruct (noteMap_get nm (n :: hi)) as [| a | | |] eqn:Ea;
    destruct (noteMap_get nm (n0 :: lo)) as [| b | | |] eqn:Eb; try reflexivity.
  cbn [js_mul js_add]. specialize (Hval a b eq_refl eq_refl).
  replace (a * 8 + b <? 26) with false by (symmetry; apply N.ltb_ge; exact Hval).
  now rewrite andb_false_r.
Qed.

Lemma walk8_pair_letter (nm : gmap jsstring N) (hi lo : jsstring)
    (rest : list jsstring) (out : jsstring) (a b : N) :
  hi <> [SLASH] -> nonempty hi = true -> nonempty lo = true ->
  noteMap_get nm hi = JNum a -> noteMap_get nm lo = JNum b -> a * 8 + b < 26 ->
  walk8 nm (hi :: lo :: rest) out = walk8 nm rest (out ++ [65 + (a * 8 + b)]).
Proof.
  intros Hs Hh Hl Ha Hb Hval. cbn [walk8]. rewrite bool_decide_eq_false_2 by exact Hs.
  destruct hi; [discriminate|]. destruct lo; [discriminate|]. cbn [falsy orb].
  rewrite Ha, Hb. cbn [is_undefined orb js_mul js_add].
  replace (a * 8 + b <? 26) with true by (symmetry; apply N.ltb_lt; exact Hval).
  replace (0 <=? a * 8 + b) with true by (symmetry; apply N.leb_le; lia).
  cbn [andb fromCharCode]. rewrite N.mod_small by lia. reflexivity.
Qed.

Lemma unit12_missing (nm : gmap jsstring N) (B : N) (hi : option jsstring) :
  unit12 nm B hi None = [QUESTION].
Proof. unfold unit12. cbn [falsy]. now rewrite orb_true_r. Qed.

Lemma unit12_undefined (nm : gmap jsstring N) (B : N) (hi lo : jsstring) :
  noteMap_get nm hi = JUndefined \/ noteMap_get nm lo = JUndefined ->
  unit12 nm B (Some hi) (Some lo) = [QUESTION].
Proof.
  intros H. unfold unit12. destruct (falsy _ || falsy _); [reflexivity|].
  cbn [elem_text]. destruct H as [-> | ->]; cbn [is_undefined orb];
    [reflexivity | now rewrite orb_true_r].
Qed.

Lemma unit12_numbers (nm : gmap jsstring N) (B : N) (hi lo : jsstring) (a b : N) :
  nonempty hi = true -> nonempty lo = true ->
  noteMap_get nm hi = JNum a -> noteMap_get nm lo = JNum b ->
  unit12 nm B (Some hi) (Some lo) = [(a * B + b) mod 65536].
Proof.
  intros Hh Hl Ha Hb. unfold unit12.
  destruct hi; [discriminate|]. destruct lo; [discriminate|].
  cbn [falsy orb elem_text]. rewrite Ha, Hb. reflexivity.
Qed.

(** *** Trimming and splitting a line of tokens *)

Lemma trimStart_tight (s : jsstring) : starts_tight s = true -> trimStart s = s.
Proof.
  destruct s as [|c r]; [discriminate|]. simpl. now destruct (is_ws c).
Qed.

Lemma trim_tight (s : jsstring) :
  starts_tight s = true -> ends_tight s = true -> trim s = s.
Proof.
  intros Hs He. unfold trim, trimEnd. rewrite (trimStart_tight s Hs).
  rewrite trimStart_tight by exact He. apply rev_involutive.
Qed.

Lemma trimEnd_snoc_ws (s : jsstring) (c : N) :
  is_ws c = true -> trimEnd (s ++ [c]) = trimEnd s.
Proof.
  intros Hc. unfold trimEnd. rewrite rev_app_distr. simpl. now rewrite Hc.
Qed.

Lemma starts_tight_app (a b : jsstring) :
  starts_tight a = true -> starts_tight (a ++ b) = true.
Proof. destruct a; [discriminate | exact (fun H => H)]. Qed.

Lemma ends_tight_app (a b : jsstring) :
  ends_tight b = true -> ends_tight (a ++ b) = true.
Proof.
  unfold ends_tight. rewrite rev_app_distr. apply starts_tight_app.
Qed.

Lemma forallb_rev {A : Type} (p : A -> bool) (l : list A) :
  forallb p (rev l) = forallb p l.
Proof.
  induction l as [|x l IH]; [reflexivity|].
  simpl. rewrite forallb_app, IH. simpl. rewrite andb_true_r. apply andb_comm.
Qed.

Lemma is_token_nonempty (t : jsstring) : is_token t = true -> nonempty t = true.
Proof. unfold is_token. intros H. now apply andb_true_iff in H as [H _]. Qed.

Lemma is_token_no_ws (t : jsstring) :
  is_token t = true -> forallb (fun c => negb (is_ws c)) t = true.
Proof. unfold is_token. intros H. now apply andb_true_iff in H as [_ H]. Qed.

Lemma is_token_starts (t : jsstring) : is_token t = true -> starts_tight t = true.
Proof.
  intros H. pose proof (is_token_no_ws t H) as Hw.
  destruct t as [|c r]; [discriminate|]. simpl in Hw |- *.
  now apply andb_true_iff in Hw as [Hw _].
Qed.

Lemma is_token_ends (t : jsstring) : is_token t = true -> ends_tight t = true.
Proof.
  intros H. unfold ends_tight. apply is_token_starts. unfold is_token.
  rewrite forallb_rev, (is_token_no_ws t H), andb_true_r.
  apply is_token_nonempty in H. destruct t as [|c r]; [discriminate|].
  simpl. now destruct (rev r).
Qed.

Lemma split_ws_from_tight (b : bool) (s : jsstring) :
  starts_tight s = true -> split_ws_from b s = split_ws_from false s.
Proof.
  destruct s as [|c r]; [discriminate|]. simpl. intros H.
  now destruct (is_ws c).
Qed.

Lemma split_ws_from_nonempty (b : bool) (s : jsstring) : split_ws_from b s <> [].
Proof.
  revert b. induction s as [|c r IH]; intros b; simpl; [discriminate|].
  destruct (is_ws c).
  - destruct b; [apply IH | discriminate].
  - destruct (split_ws_from false r); discriminate.
Qed.

Lemma split_ws_from_token_app (t s : jsstring) :
  forallb (fun c => negb (is_ws c)) t = true ->
  split_ws_from false (t ++ s)
  = match split_ws_from false s with
    | h :: pieces => (t ++ h) :: pieces
    | [] => [t]
    end.
Proof.
  pose proof (split_ws_from_nonempty false s) as Hne.
  induction t as [|c t IH]; intros Hw.
  - simpl. destruct (split_ws_from false s); [congruence | reflexivity].
  - simpl in Hw. apply andb_true_iff in Hw as [Hc Hw].
    cbn [app split_ws_from]. apply negb_true_iff in Hc. rewrite Hc.
    rewrite IH by exact Hw.
    destruct (split_ws_from false s); [congruence | reflexivity].
Qed.

Lemma join_tokens_tight (t : jsstring) (toks : list jsstring) :
  Forall (fun t => is_token t = true) (t :: toks) ->
  starts_tight (join [SPACE] (List.map Some (t :: toks))) = true
  /\ ends_tight (join [SPACE] (List.map Some (t :: toks))) = true.
Proof.
  revert t. induction toks as [|u toks IH]; intros t Ht.
  - inversion Ht; subst. simpl. split; [now apply is_token_starts | now apply is_token_ends].
  - inversion Ht as [|? ? Htok Hrest]; subst.
    change (join [SPACE] (List.map Some (t :: u :: toks)))
      with (t ++ [SPACE] ++ join [SPACE] (List.map Some (u :: toks))).
    destruct (IH u Hrest) as [_ He]. split.
    + apply starts_tight_app. now apply is_token_starts.
    + rewrite app_assoc. now apply ends_tight_app.
Qed.

Lemma split_ws_join (toks : list jsstring) :
  Forall (fun t => is_token t = true) toks -> toks <> [] ->
  split_ws (join [SPACE] (List.map Some toks)) = toks.
Proof.
  unfold split_ws. induction toks as [|t toks IH]; intros Ht Hne; [congruence|].
  inversion Ht as [|? ? Htok Hrest]; subst.
  destruct toks as [|u toks].
  - cbn [List.map join elem_text]. rewrite <- (app_nil_r t) at 1.
    rewrite split_ws_from_token_app by now apply is_token_no_ws.
    simpl. now rewrite app_nil_r.
  - change (join [SPACE] (List.map Some (t :: u :: toks)))
      with (t ++ SPACE :: join [SPACE] (List.map Some (u :: toks))).
    rewrite split_ws_from_token_app by now apply is_token_no_ws.
    cbn [split_ws_from]. change (is_ws SPACE) with true. cbn iota.
    rewrite split_ws_from_tight by (now apply join_tokens_tight).
    rewrite IH by (auto; discriminate). now rewrite app_nil_r.
Qed.

Lemma filter_nonempty_tokens (toks : list jsstring) :
  Forall (fun t => is_token t = true) toks -> List.filter nonempty toks = toks.
Proof.
  induction 1 as [|t toks Ht _ IH]; [reflexivity|].
  simpl. rewrite (is_token_nonempty t Ht). now rewrite IH.
Qed.

Lemma tokens12_join (toks : list jsstring) :
  Forall (fun t => is_token t = true) toks -> toks <> [] ->
  split_ws (trim (join [SPACE] (List.map Some toks))) = toks.
Proof.
  intros Ht Hne. destruct toks as [|t toks]; [congruence|].
  destruct (join_tokens_tight t toks Ht) as [Hs He].
  rewrite trim_tight by assumption. now apply split_ws_join.
Qed.

Lemma tokens8_join (toks : list jsstring) :
  Forall (fun t => is_token t = true) toks ->
  tokens8 (join [SPACE] (List.map Some toks)) = toks.
Proof.
  intros Ht. unfold tokens8. destruct toks as [|t toks]; [reflexivity|].
  rewrite tokens12_join by (auto; discriminate).
  now apply filter_nonempty_tokens.
Qed.

Lemma count_nl_no_ws (t : jsstring) :
  forallb (fun c => negb (is_ws c)) t = true -> count_nl t = 0%nat.
Proof.
  unfold count_nl. induction t as [|c t IH]; [reflexivity|].
  simpl. intros H. apply andb_true_iff in H as [Hc H].
  destruct (c =? NEWLINE) eqn:E.
  - apply N.eqb_eq in E. subst c. discriminate.
  - now apply IH.
Qed.

Lemma count_nl_join_tokens (toks : list jsstring) :
  Forall (fun t => is_token t = true) toks ->
  count_nl (join [SPACE] (List.map Some toks)) = 0%nat.
Proof.
  intros Ht. destruct toks as [|t toks]; [reflexivity|].
  cbn [List.map]. rewrite join_cons, count_nl_app. cbn [elem_text].
  inversion Ht as [|? ? Htok Hrest]; subst.
  rewrite (count_nl_no_ws t) by now apply is_token_no_ws.
  simpl. clear Ht Htok. induction Hrest as [|u toks Hu _ IH]; [reflexivity|].
  cbn [List.map concat elem_text].
  rewrite count_nl_app, IH, Nat.add_0_r.
  change (count_nl (u) = 0%nat). now apply count_nl_no_ws, is_token_no_ws.
Qed.

(** *** The encoder *)

Lemma encode_loop_concat (config : CipherConfig) (text : jsstring) :
  forall acc,
    encode_loop config text acc = acc ++ concat (List.map (encode_char config) text).
Proof.
  induction text as [|c r IH]; intros acc; simpl.
  - now rewrite app_nil_r.
  - now rewrite IH, app_assoc.
Qed.

Lemma encodeBase8_concat (config : CipherConfig) (text : jsstring) :
  encodeBase8 config text = concat (List.map (encode_char config) text).
Proof. unfold encodeBase8. now rewrite encode_loop_concat. Qed.

Lemma encodeBase8_app (config : CipherConfig) (a b : jsstring) :
  encodeBase8 config (a ++ b) = encodeBase8 config a ++ encodeBase8 config b.
Proof. now rewrite !encodeBase8_concat, List.map_app, concat_app. Qed.

Lemma is_letter_spec (c : N) :
  is_letter c = true <-> (65 <= c <= 90) \/ (97 <= c <= 122).
Proof.
  unfold is_letter. rewrite orb_true_iff, !andb_true_iff, !N.leb_le. tauto.
Qed.

Lemma upper_unit_letter (c : N) :
  is_letter c = true -> 65 <= upper_unit c <= 90.
Proof.
  intros H. apply is_letter_spec in H. unfold upper_unit.
  destruct ((97 <=? c) && (c <=? 122)) eqn:E.
  - apply andb_true_iff in E as [E1 E2]. apply N.leb_le in E1, E2. lia.
  - apply andb_false_iff in E. rewrite !N.leb_gt in E. lia.
Qed.

Lemma encode_char_letter (config : CipherConfig) (c : N) :
  is_letter c = true ->
  letter_index c < 26
  /\ 65 + letter_index c = upper_unit c
  /\ encode_char config c
     = [ notes config !! N.to_nat (letter_index c / 8);
         notes config !! N.to_nat (letter_index c mod 8) ].
Proof.
  intros H. pose proof (upper_unit_letter c H) as Hu.
  pose proof (proj1 (is_letter_spec c) H) as Hc.
  unfold letter_index. repeat split; [lia | lia |].
  unfold encode_char.
  replace (c =? SPACE) with false by (symmetry; apply N.eqb_neq; unfold SPACE; lia).
  replace (c =? NEWLINE) with false by (symmetry; apply N.eqb_neq; unfold NEWLINE; lia).
  rewrite H.
  replace (Z.of_N (upper_unit c) - 65)%Z with (Z.of_N (upper_unit c - 65)) by lia.
  replace ((0 <=? Z.of_N (upper_unit c - 65)) && (Z.of_N (upper_unit c - 65) <? 26))%Z
    with true
    by (symmetry; apply andb_true_iff; split; [apply Z.leb_le | apply Z.ltb_lt]; lia).
  cbn [note_at].
  change 8%Z with (Z.of_N 8).
  rewrite <- N2Z.inj_div, <- N2Z.inj_mod.
  assert (Hnat : forall n, Z.to_nat (Z.of_N n) = N.to_nat n) by (intros n; lia).
  now rewrite !Hnat.
Qed.

(** *** Letters through the encoder and back *)

Section LetterRoundTrip.

Variable config : CipherConfig.
Hypothesis Hdistinct : NoDup (notes config).
Hypothesis Hlen : (8 <= length (notes config))%nat.
Hypothesis Hok : Forall (fun t => note_ok t = true) (take 8 (notes config)).

Lemma note_ok_parts (t : jsstring) :
  note_ok t = true -> is_token t = true /\ t <> [SLASH] /\ t <> proto_key.
Proof.
  unfold note_ok. rewrite !andb_true_iff, !negb_true_iff.
  intros [[Ht Hs] Hp]. apply bool_decide_eq_false in Hs, Hp. auto.
Qed.

Lemma first8_lookup (k : nat) :
  (k < 8)%nat -> exists t, notes config !! k = Some t /\ note_ok t = true.
Proof.
  intros Hk. destruct (lookup_lt_is_Some_2 (notes config) k) as [t Ht]; [lia|].
  exists t. split; [exact Ht|].
  apply (Forall_lookup_1 _ _ k t Hok). now rewrite lookup_take_lt.
Qed.

Lemma walk8_letter (c : N) (rest : list jsstring) :
  is_letter c = true ->
  exists th tl,
    encode_char config c = [Some th; Some tl]
    /\ is_token th = true /\ is_token tl = true
    /\ forall out,
         walk8 (build_noteMap config) (th :: tl :: rest) out
         = walk8 (build_noteMap config) rest (out ++ [upper_unit c]).
Proof.
  intros Hc. destruct (encode_char_letter config c Hc) as (Hidx & Hup & Henc).
  assert (Hhi : letter_index c / 8 < 4) by (apply N.Div0.div_lt_upper_bound; lia).
  assert (Hlo : letter_index c mod 8 < 8) by (apply N.mod_lt; lia).
  destruct (first8_lookup (N.to_nat (letter_index c / 8))) as (th & Hth & Hokh); [lia|].
  destruct (first8_lookup (N.to_nat (letter_index c mod 8))) as (tl & Htl & Hokl); [lia|].
  apply note_ok_parts in Hokh as (Hth1 & Hth2 & Hth3).
  apply note_ok_parts in Hokl as (Htl1 & Htl2 & Htl3).
  exists th, tl. rewrite Henc, Hth, Htl. repeat split; try assumption.
  intros out.
  rewrite (walk8_pair_letter _ th tl rest out
             (N.of_nat (N.to_nat (letter_index c / 8)))
             (N.of_nat (N.to_nat (letter_index c mod 8)))).
  - rewrite !N2Nat.id. rewrite (N.mul_comm _ 8), <- N.div_mod by lia.
    now rewrite Hup.
  - exact Hth2.
  - now apply is_token_nonempty.
  - now apply is_token_nonempty.
  - now apply noteMap_get_note.
  - now apply noteMap_get_note.
  - rewrite !N2Nat.id. rewrite (N.mul_comm _ 8), <- N.div_mod by lia. exact Hidx.
Qed.

Lemma encode_letters (s : jsstring) :
  Forall (fun c => is_letter c = true) s ->
  exists toks,
    encodeBase8 config s = List.map Some toks
    /\ Forall (fun t => is_token t = true) toks
    /\ forall out, walk8 (build_noteMap config) toks out = out ++ toUpperCase s.
Proof.
  induction 1 as [|c s Hc _ (toks & Henc & Htok & Hwalk)].
  - exists []. repeat split; [constructor | intros out; simpl; now rewrite app_nil_r].
  - destruct (walk8_letter c toks Hc) as (th & tl & Hch & Hth & Htl & Hstep).
    exists (th :: tl :: toks). repeat split.
    + change (c :: s) with ([c] ++ s). rewrite encodeBase8_app, Henc.
      rewrite encodeBase8_concat. simpl. now rewrite Hch.
    + now repeat constructor.
    + intros out. rewrite Hstep, Hwalk. simpl. now rewrite <- app_assoc.
Qed.

Lemma decode_joined_tokens (toks : list jsstring) :
  Forall (fun t => is_token t = true) toks ->
  decodeBase8 config (join [SPACE] (List.map Some toks))
  = walk8 (build_noteMap config) toks [].
Proof.
  intros Htok. rewrite decodeBase8_lines.
  rewrite split_nl_no_newline by now apply count_nl_join_tokens.
  unfold join_lines, decodeLine8. simpl. now rewrite tokens8_join.
Qed.

Lemma letters_round_trip (s : jsstring) :
  Forall (fun c => is_letter c = true) s ->
  decodeBase8 config (join [SPACE] (encodeBase8 config s)) = toUpperCase s.
Proof.
  intros Hs. destruct (encode_letters s Hs) as (toks & Henc & Htok & Hwalk).
  rewrite Henc, decode_joined_tokens by exact Htok. apply Hwalk.
Qed.

End LetterRoundTrip.

Lemma forallb_Forall_true {A : Type} (p : A -> bool) (l : list A) :
  forallb p l = true -> Forall (fun x => p x = true) l.
Proof.
  induction l as [|x l IH]; simpl; intros H; constructor;
    apply andb_true_iff in H as [Hx Hl]; auto.
Qed.

(** *** Characters on the octal path *)

Lemma octal_three_digits (c : N) :
  c < 512 ->
  padStart3 (toString8 c) = [48 + c / 64; 48 + (c / 8) mod 8; 48 + c mod 8].
Proof.
  intros Hc.
  assert (Hall : forallb
            (fun n => bool_decide
               (padStart3 (toString8 n) = [48 + n / 64; 48 + (n / 8) mod 8; 48 + n mod 8]))
            (List.map N.of_nat (seq 0 512)) = true) by (vm_compute; reflexivity).
  rewrite forallb_forall in Hall.
  assert (Hin : In c (List.map N.of_nat (seq 0 512))).
  { rewrite <- (N2Nat.id c). apply in_map, in_seq. lia. }
  apply Hall in Hin. now apply bool_decide_eq_true in Hin.
Qed.

(** The fuel of [toString8] is enough: the result consists of octal digits
    that denote the number. *)
Lemma octal_digits_value (fuel : nat) :
  forall n acc,
    n < 8 ^ N.of_nat fuel ->
    fold_left (fun a d => a * 8 + (d - 48)) (octal_digits fuel n acc) 0
    = fold_left (fun a d => a * 8 + (d - 48)) acc n.
Proof.
  induction fuel as [|f IH]; intros n acc Hn.
  - simpl in Hn |- *. replace n with 0 by lia. reflexivity.
  - cbn [octal_digits]. pose proof (N.div_mod n 8 ltac:(lia)) as Hdm.
    destruct (n / 8 =? 0) eqn:E.
    + apply N.eqb_eq in E. cbn [fold_left]. f_equal.
      revert Hdm E. generalize (n / 8), (n mod 8). clear. intros q m Hdm E. lia.
    + rewrite IH.
      * cbn [fold_left]. f_equal.
        revert Hdm. generalize (n / 8), (n mod 8). clear. intros q m Hdm. lia.
      * apply N.Div0.div_lt_upper_bound.
        rewrite Nat2N.inj_succ, N.pow_succ_r' in Hn. exact Hn.
Qed.

Lemma octal_digits_range (fuel : nat) :
  forall n acc,
    forallb (fun d => (48 <=? d) && (d <=? 55)) acc = true ->
    forallb (fun d => (48 <=? d) && (d <=? 55)) (octal_digits fuel n acc) = true.
Proof.
  induction fuel as [|f IH]; intros n acc Hacc; [exact Hacc|].
  cbn [octal_digits].
  assert (Hd : forallb (fun d => (48 <=? d) && (d <=? 55)) ((48 + n mod 8) :: acc) = true).
  { cbn [forallb]. rewrite Hacc, andb_true_r.
    pose proof (N.mod_lt n 8 ltac:(lia)) as H. revert H.
    generalize (n mod 8). intros m H.
    apply andb_true_iff; split; apply N.leb_le; lia. }
  destruct (n / 8 =? 0); [exact Hd | now apply IH].
Qed.

Lemma toString8_value (n : N) :
  octal_value (toString8 n) = n
  /\ forallb (fun d => (48 <=? d) && (d <=? 55)) (toString8 n) = true.
Proof.
  unfold octal_value, toString8. split; [|now apply octal_digits_range].
  rewrite octal_digits_value; [reflexivity|].
  rewrite Nat2N.inj_succ, N2Nat.id.
  destruct (N.eq_dec n 0) as [->|Hn]; [reflexivity|].
  apply N.lt_le_trans with (2 ^ N.succ (N.log2 n)).
  - apply N.log2_spec. lia.
  - apply N.pow_le_mono_l. lia.
Qed.

Lemma parseInt8_digit (d : N) :
  d < 8 -> parseInt8 (Some (48 + d)) = Some (N.to_nat d).
Proof.
  intros Hd. unfold parseInt8.
  replace ((48 <=? 48 + d) && (48 + d <=? 55)) with true
    by (symmetry; apply andb_true_iff; split; apply N.leb_le; lia).
  do 2 f_equal. lia.
Qed.

Lemma encode_char_octal (config : CipherConfig) (ch : N) :
  ch <> SPACE -> ch <> NEWLINE -> is_letter ch = false -> ch < 512 ->
  encode_char config ch
  = [ notes config !! N.to_nat (ch / 64);
      notes config !! N.to_nat ((ch / 8) mod 8);
      notes config !! N.to_nat (ch mod 8);
      None ].
Proof.
  intros Hs Hn Hl Hc. unfold encode_char.
  rewrite (proj2 (N.eqb_neq ch SPACE) Hs), (proj2 (N.eqb_neq ch NEWLINE) Hn), Hl.
  rewrite octal_three_digits by exact Hc. cbn [octal_chunks].
  rewrite !parseInt8_digit; [reflexivity | | |].
  - apply N.mod_lt. lia.
  - apply N.mod_lt. lia.
  - apply N.Div0.div_lt_upper_bound. lia.
Qed.

(** *** Well-formed output *)

Lemma forEach_invariant {A S : Type} (P : S -> Prop) (f : A -> N -> S -> S) (l : list A) :
  (forall x i s, P s -> P (f x i s)) ->
  forall i s, P s -> P (forEach f l i s).
Proof.
  intros Hf. induction l as [|x l IH]; intros i s Hs; simpl; auto.
Qed.








Lemma tokens8_nonempty (line : jsstring) :
  Forall (fun t => nonempty t = true) (tokens8 line).
Proof.
  unfold tokens8. apply Forall_forall. intros t Ht.
  apply list_elem_of_In, filter_In in Ht. tauto.
Qed.

Lemma walk12_pair (nm : gmap jsstring N) (B : N) (hi lo : jsstring)
    (rest : list jsstring) (out : jsstring) :
  walk12 nm B (hi :: lo :: rest) out
  = walk12 nm B rest (out ++ unit12 nm B (Some hi) (Some lo)).
Proof. reflexivity. Qed.

Lemma unit12_placeholder (nm : gmap jsstring N) (B : N) (hi lo : jsstring) :
  hi = [] \/ lo = [] \/ noteMap_get nm hi = JUndefined \/ noteMap_get nm lo = JUndefined ->
  unit12 nm B (Some hi) (Some lo) = [QUESTION].
Proof.
  intros [-> | [-> | H]].
  - reflexivity.
  - unfold unit12. cbn [falsy]. now rewrite orb_true_r.
  - now apply unit12_undefined.
Qed.

Lemma join_lines_middle (f : jsstring -> jsstring) (ls1 ls2 : list jsstring)
    (line x : jsstring) :
  f line = x ->
  join_lines (List.map f (ls1 ++ line :: ls2))
  = join_lines (List.map f ls1 ++ x :: List.map f ls2).
Proof. intros <-. now rewrite List.map_app. Qed.

(** *** Lines of blanks, and blanks around a line *)

Lemma trimStart_blank (s : jsstring) : forallb is_ws s = true -> trimStart s = [].
Proof.
  induction s as [|c s IH]; [reflexivity|]. simpl. intros H.
  apply andb_true_iff in H as [Hc Hs]. rewrite Hc. now apply IH.
Qed.

Lemma trim_blank (s : jsstring) : forallb is_ws s = true -> trim s = [].
Proof. intros H. unfold trim. now rewrite trimStart_blank. Qed.

Lemma split_nl_blank (s : jsstring) :
  forallb is_ws s = true -> Forall (fun l => forallb is_ws l = true) (split_nl s).
Proof.
  induction s as [|c s IH]; simpl; intros H; [now repeat constructor|].
  apply andb_true_iff in H as [Hc Hs]. specialize (IH Hs).
  destruct (c =? NEWLINE); [now constructor|].
  destruct (split_nl s) as [|l ls]; [now repeat constructor; simpl; rewrite Hc|].
  inversion IH; subst. constructor; [simpl; now rewrite Hc | assumption].
Qed.

Lemma decodeLine8_blank (config : CipherConfig) (line : jsstring) :
  forallb is_ws line = true -> decodeLine8 config line = [].
Proof. intros H. unfold decodeLine8, tokens8. now rewrite trim_blank. Qed.

Lemma join_lines_empty (n : nat) :
  join_lines (repeat [] (S n)) = repeat NEWLINE n.
Proof.
  cbn [repeat]. rewrite join_lines_cons. simpl.
  induction n as [|n IH]; [reflexivity|]. simpl. now rewrite IH.
Qed.

Lemma map_blank_lines (config : CipherConfig) (ls : list jsstring) :
  Forall (fun l => forallb is_ws l = true) ls ->
  List.map (decodeLine8 config) ls = repeat [] (length ls).
Proof.
  induction 1 as [|l ls Hl _ IH]; [reflexivity|].
  simpl. now rewrite decodeLine8_blank, IH.
Qed.

Lemma trim_cons_ws (c : N) (s : jsstring) : is_ws c = true -> trim (c :: s) = trim s.
Proof. intros Hc. unfold trim. simpl. now rewrite Hc. Qed.

Lemma trim_snoc_ws (s : jsstring) (c : N) :
  starts_tight s = true -> is_ws c = true -> trim (s ++ [c]) = trim s.
Proof.
  intros Hs Hc. unfold trim.
  rewrite (trimStart_tight (s ++ [c])) by now apply starts_tight_app.
  rewrite trimEnd_snoc_ws by exact Hc. now rewrite (trimStart_tight s).
Qed.

(* ===================================================================== *)
(** ** The claims *)
(* ===================================================================== *)

(** C1, as amended: when the notes are pairwise distinct, number at least
    eight, and each of the first eight is a non-empty string without
    whitespace other than ["/"] and ["__proto__"], decoding with
    [decodeBase8] the space-joined output of [encodeBase8] on a string of
    ASCII letters gives the string in upper case; ["HI"] is encoded as
    [notes[0], notes[7], notes[1], notes[0]], and these four symbols decode
    to ["HI"]. *)
Theorem base8_letter_round_trip (config : CipherConfig) (s : jsstring) :
  NoDup (notes config) ->
  (8 <= length (notes config))%nat ->
  forallb note_ok (take 8 (notes config)) = true ->
  forallb is_letter s = true ->
  decodeBase8 config (join [SPACE] (encodeBase8 config s)) = toUpperCase s
  /\ encodeBase8 config (lit "HI")
     = [ notes config !! 0%nat; notes config !! 7%nat;
         notes config !! 1%nat; notes config !! 0%nat ]
  /\ decodeBase8 config
       (join [SPACE] [ notes config !! 0%nat; notes config !! 7%nat;
                       notes config !! 1%nat; notes config !! 0%nat ])
     = lit "HI".
Proof.
  intros Hnd Hlen Hok Hs.
  apply forallb_Forall_true in Hok, Hs.
  split; [now apply letters_round_trip|].
  split; [reflexivity|].
  change [notes config !! 0%nat; notes config !! 7%nat;
          notes config !! 1%nat; notes config !! 0%nat]
    with (encodeBase8 config (lit "HI")).
  rewrite letters_round_trip; auto. now repeat constructor.
Qed.

Lemma base8_letter_round_trip_witness :
  NoDup (notes major8)
  /\ forallb note_ok (take 8 (notes major8)) = true
  /\ decodeBase8 major8 (join [SPACE] (encodeBase8 major8 (lit "Hi"))) = lit "HI".
Proof.
  assert (Hnd : NoDup (notes major8))
    by (apply (bool_decide_unpack _); vm_compute; exact I).
  split; [exact Hnd|]. split; [reflexivity|].
  apply (base8_letter_round_trip major8 (lit "Hi") Hnd);
    [simpl; lia | reflexivity | reflexivity].
Defined.

(** C3: a character that is no space, no newline and no ASCII letter, with
    a code below 512, has a three-digit padded octal text; [encodeBase8]
    walks it two digits at a time and emits four elements for it, the notes
    of the three digits and then an undefined element for the missing
    fourth digit. *)
Theorem encodeBase8_octal_dangling_digit (config : CipherConfig)
    (pre post : jsstring) (ch : N) :
  ch <> SPACE -> ch <> NEWLINE -> is_letter ch = false -> ch < 512 ->
  padStart3 (toString8 ch) = [48 + ch / 64; 48 + (ch / 8) mod 8; 48 + ch mod 8]
  /\ note_at config (parseInt8 None) = None
  /\ encodeBase8 config (pre ++ ch :: post)
     = encodeBase8 config pre
       ++ [ notes config !! N.to_nat (ch / 64);
            notes config !! N.to_nat ((ch / 8) mod 8);
            notes config !! N.to_nat (ch mod 8);
            None ]
       ++ encodeBase8 config post.
Proof.
  intros Hs Hn Hl Hc. split; [now apply octal_three_digits|]. split; [reflexivity|].
  change (ch :: post) with ([ch] ++ post). rewrite !encodeBase8_app. do 2 f_equal.
  rewrite encodeBase8_concat. simpl. rewrite app_nil_r.
  now apply encode_char_octal.
Qed.

Lemma encodeBase8_octal_dangling_digit_witness :
  encodeBase8 major8 (lit "A!B")
  = encodeBase8 major8 (lit "A")
    ++ [Some (lit "C"); Some (lit "G"); Some (lit "D"); None]
    ++ encodeBase8 major8 (lit "B").
Proof.
  apply (encodeBase8_octal_dangling_digit major8 (lit "A") (lit "B") 33);
    [discriminate | discriminate | reflexivity | reflexivity].
Defined.

(** C9: [decodeBase8] puts the decoded lines together with one newline
    before every line except the first; no line decodes to text with a
    newline in it, so the output has as many newlines as the input. *)
Theorem decodeBase8_newline_count (config : CipherConfig) (noteStr : jsstring) :
  decodeBase8 config noteStr
  = join_lines (List.map (decodeLine8 config) (split_nl noteStr))
  /\ Forall (fun l => count_nl l = 0%nat) (List.map (decodeLine8 config) (split_nl noteStr))
  /\ count_nl (decodeBase8 config noteStr) = count_nl noteStr.
Proof.
  assert (Hlines : Forall (fun l => count_nl l = 0%nat)
                     (List.map (decodeLine8 config) (split_nl noteStr))).
  { apply List.Forall_map, Forall_forall. intros line _.
    unfold decodeLine8. now rewrite walk8_count_nl. }
  split; [apply decodeBase8_lines|]. split; [exact Hlines|].
  rewrite decodeBase8_lines, count_nl_join_lines by exact Hlines.
  now rewrite length_map, split_nl_length.
Qed.

(** C5: when the walk of a line in [decodeBase8] reaches a token other
    than ["/"] that has no token after it, the line's output is what the
    earlier tokens gave followed by one ['?'] and nothing more, and the
    lines before and after it are decoded as they are anyway. *)
Theorem decodeBase8_odd_trailing_token (config : CipherConfig)
    (noteStr line : jsstring) (ls1 ls2 : list jsstring)
    (pre : list jsstring) (tok : jsstring) :
  split_nl noteStr = ls1 ++ line :: ls2 ->
  tokens8 line = pre ++ [tok] ->
  whole_steps8 pre = true ->
  tok <> [SLASH] ->
  decodeLine8 config line = walk8 (build_noteMap config) pre [] ++ [QUESTION]
  /\ decodeBase8 config noteStr
     = join_lines
         (List.map (decodeLine8 config) ls1
          ++ (walk8 (build_noteMap config) pre [] ++ [QUESTION])
          :: List.map (decodeLine8 config) ls2).
Proof.
  intros Hlines Htok Hpre Hne.
  assert (Hline : decodeLine8 config line
                  = walk8 (build_noteMap config) pre [] ++ [QUESTION]).
  { unfold decodeLine8. rewrite Htok.
    pose proof (tokens8_nonempty line) as Hall. rewrite Htok in Hall.
    apply Forall_app in Hall as [Hall _].
    rewrite walk8_app by assumption. now apply walk8_single. }
  split; [exact Hline|].
  rewrite decodeBase8_lines, Hlines. now apply join_lines_middle.
Qed.

Lemma decodeBase8_odd_trailing_token_witness :
  decodeBase8 major8 (lit "C D / E" ++ [NEWLINE] ++ lit "C H")
  = join_lines [lit "B ?"; lit "H"].
Proof.
  apply (decodeBase8_odd_trailing_token major8
           (lit "C D / E" ++ [NEWLINE] ++ lit "C H") (lit "C D / E")
           [] [lit "C H"] [lit "C"; lit "D"; lit "/"] (lit "E"));
    [reflexivity | reflexivity | reflexivity | discriminate].
Defined.

(** C6: when the pair of tokens that the walk of [decodeBase8] stands at
    begins with a token other than ["/"] and holds a token that is not in
    [config.notes], one ['?'] is appended, the walk moves on by two tokens,
    and the rest of the same line is decoded after it. *)
Theorem decodeBase8_unknown_symbol (config : CipherConfig)
    (noteStr line : jsstring) (ls1 ls2 : list jsstring)
    (pre : list jsstring) (hi lo : jsstring) (rest : list jsstring) :
  split_nl noteStr = ls1 ++ line :: ls2 ->
  tokens8 line = pre ++ hi :: lo :: rest ->
  whole_steps8 pre = true ->
  hi <> [SLASH] ->
  hi ∉ notes config \/ lo ∉ notes config ->
  (forall out,
     walk8 (build_noteMap config) (hi :: lo :: rest) out
     = walk8 (build_noteMap config) rest (out ++ [QUESTION]))
  /\ decodeLine8 config line
     = walk8 (build_noteMap config) pre [] ++ [QUESTION]
       ++ walk8 (build_noteMap config) rest []
  /\ decodeBase8 config noteStr
     = join_lines
         (List.map (decodeLine8 config) ls1
          ++ (walk8 (build_noteMap config) pre [] ++ [QUESTION]
              ++ walk8 (build_noteMap config) rest [])
          :: List.map (decodeLine8 config) ls2).
Proof.
  intros Hlines Htok Hpre Hne Hunknown.
  pose proof (tokens8_nonempty line) as Hall. rewrite Htok in Hall.
  apply Forall_app in Hall as [Hall Hrest].
  inversion Hrest as [|? ? Hhi Hrest']; subst.
  inversion Hrest' as [|? ? Hlo _]; subst.
  assert (Hstep : forall out,
             walk8 (build_noteMap config) (hi :: lo :: rest) out
             = walk8 (build_noteMap config) rest (out ++ [QUESTION])).
  { intros out. apply walk8_pair_placeholder; try assumption.
    intros a b Ha Hb. destruct Hunknown as [Hu | Hu].
    - now apply noteMap_get_unknown with (n := a) in Hu.
    - now apply noteMap_get_unknown with (n := b) in Hu. }
  assert (Hline : decodeLine8 config line
                  = walk8 (build_noteMap config) pre [] ++ [QUESTION]
                    ++ walk8 (build_noteMap config) rest []).
  { unfold decodeLine8. rewrite Htok, walk8_app by assumption.
    rewrite Hstep, walk8_out. now rewrite <- app_assoc. }
  split; [exact Hstep|]. split; [exact Hline|].
  rewrite decodeBase8_lines, Hlines. now apply join_lines_middle.
Qed.

Lemma decodeBase8_unknown_symbol_witness :
  decodeBase8 major8 (lit "C D X C / C H") = lit "B? H".
Proof.
  apply (decodeBase8_unknown_symbol major8
           (lit "C D X C / C H") (lit "C D X C / C H") [] []
           [lit "C"; lit "D"] (lit "X") (lit "C") [lit "/"; lit "C"; lit "H"]);
    [reflexivity | reflexivity | reflexivity | discriminate |].
  left. apply (bool_decide_unpack _). vm_compute. exact I.
Defined.

(** C10, as amended: on an empty or whitespace-only input [decodeBase12]
    returns ["?"], and [decodeBase8] returns one newline for every newline
    of the input, which is the empty string when the input has none. *)
Theorem decoders_on_blank_input (config : CipherConfig) (noteStr : jsstring) :
  forallb is_ws noteStr = true ->
  decodeBase12 config noteStr = [QUESTION]
  /\ decodeBase8 config noteStr = repeat NEWLINE (count_nl noteStr)
  /\ (count_nl noteStr = 0%nat -> decodeBase8 config noteStr = []).
Proof.
  intros Hblank.
  assert (H8 : decodeBase8 config noteStr = repeat NEWLINE (count_nl noteStr)).
  { rewrite decodeBase8_lines, map_blank_lines by now apply split_nl_blank.
    rewrite split_nl_length. apply join_lines_empty. }
  split; [|split; [exact H8 | intros H0; now rewrite H8, H0]].
  rewrite decodeBase12_lines, trim_blank by exact Hblank. reflexivity.
Qed.

Lemma decoders_on_blank_input_witness :
  decodeBase12 major8 [SPACE; NEWLINE; 9] = [QUESTION]
  /\ decodeBase8 major8 [SPACE; NEWLINE; 9] = [NEWLINE].
Proof.
  destruct (decoders_on_blank_input major8 [SPACE; NEWLINE; 9]) as (H12 & H8 & _);
    [reflexivity|].
  split; [exact H12 | exact H8].
Defined.

(** C10 as stated fails: a lone newline is whitespace-only, and
    [decodeBase8] returns it. *)
Lemma decodeBase8_blank_keeps_newlines :
  ~ (forall (config : CipherConfig) (noteStr : jsstring),
       forallb is_ws noteStr = true ->
       decodeBase12 config noteStr = [QUESTION] /\ decodeBase8 config noteStr = []).
Proof.
  intros H. destruct (H major8 [NEWLINE]) as [_ H8]; [reflexivity|].
  vm_compute in H8. discriminate.
Qed.

(** C2, as amended: [decodeBase12] does emit ['?'] as the base-8 decoder
    does: a pair whose second token is missing, or one that holds a token
    for which the note table has no entry, gives exactly one ['?'], after
    which the walk goes on with the next pair of the line. *)
Theorem decodeBase12_placeholder_units (config : CipherConfig)
    (noteStr line : jsstring) (ls1 ls2 : list jsstring)
    (pre : list jsstring) (hi : jsstring) (after : list jsstring) :
  split_nl (trim noteStr) = ls1 ++ line :: ls2 ->
  split_ws (trim line) = pre ++ hi :: after ->
  Nat.even (length pre) = true ->
  after = []
  \/ (exists lo, head after = Some lo
                 /\ (noteMap_get (build_noteMap config) hi = JUndefined
                     \/ noteMap_get (build_noteMap config) lo = JUndefined)) ->
  decodeLine12 config line
  = walk12 (build_noteMap config) (N.of_nat (length (notes config))) pre []
    ++ [QUESTION]
    ++ walk12 (build_noteMap config) (N.of_nat (length (notes config))) (tail after) []
  /\ decodeBase12 config noteStr
     = join_lines
         (List.map (decodeLine12 config) ls1
          ++ (walk12 (build_noteMap config) (N.of_nat (length (notes config))) pre []
              ++ [QUESTION]
              ++ walk12 (build_noteMap config) (N.of_nat (length (notes config)))
                   (tail after) [])
          :: List.map (decodeLine12 config) ls2).
Proof.
  intros Hlines Htok Hpre Hbad.
  set (nm := build_noteMap config) in *.
  set (B := N.of_nat (length (notes config))) in *.
  assert (Hline : decodeLine12 config line
                  = walk12 nm B pre [] ++ [QUESTION] ++ walk12 nm B (tail after) []).
  { unfold decodeLine12. fold nm B. rewrite Htok, walk12_app by exact Hpre.
    destruct Hbad as [-> | (lo & Hlo & Hundef)].
    - cbn [walk12 tail]. now rewrite unit12_missing.
    - destruct after as [|lo' rest]; [discriminate|]. injection Hlo as ->.
      rewrite walk12_pair, unit12_undefined by exact Hundef.
      cbn [tail]. rewrite walk12_out. now rewrite <- app_assoc. }
  split; [exact Hline|].
  rewrite decodeBase12_lines, Hlines. now apply join_lines_middle.
Qed.

Lemma decodeBase12_placeholder_units_witness :
  decodeBase12 major8 (lit "G D X C G F") = lit "!?#".
Proof.
  apply (decodeBase12_placeholder_units major8
           (lit "G D X C G F") (lit "G D X C G F") [] []
           [lit "G"; lit "D"] (lit "X") [lit "C"; lit "G"; lit "F"]);
    [reflexivity | reflexivity | reflexivity |].
  right. exists (lit "C"). split; [reflexivity|]. left. reflexivity.
Defined.

(** C2 as stated fails: a lone token and a pair with a symbol outside the
    alphabet both decode to ["?"] under [decodeBase12]. *)
Lemma decodeBase12_emits_placeholder :
  decodeBase12 major8 (lit "C") = [QUESTION]
  /\ (lit "X" ∉ notes major8)
  /\ decodeBase12 major8 (lit "X C") = [QUESTION].
Proof.
  split; [reflexivity|]. split; [|reflexivity].
  apply (bool_decide_unpack _). vm_compute. exact I.
Qed.

(** *** The tokens of a line of the base-N decoder *)







(** *** One line of either decoder inside the whole output *)










(** A symbol that is not a note but names a property inherited from
    [Object.prototype] passes the [undefined] test of [decodeBase12]: the
    pair yields the character with code 0. *)
Example decodeBase12_inherited_name :
  decodeBase12 major8 (lit "constructor constructor") = [0].
Proof. vm_compute. reflexivity. Qed.

Lemma note_ok12_parts (t : jsstring) :
  note_ok12 t = true -> is_token t = true /\ t <> proto_key.
Proof.
  unfold note_ok12. rewrite andb_true_iff, negb_true_iff.
  intros [Ht Hp]. apply bool_decide_eq_false in Hp. auto.
Qed.

(** C7, as amended: when the [B] notes are pairwise distinct, non-empty
    strings without whitespace, none of them ["__proto__"], then for every
    character (a UTF-16 code unit) with a code below [B*B], [decodeBase12]
    turns the two notes [notes[code div B]] and [notes[code mod B]],
    separated by a space, into the one-character string of that code. *)
Theorem base12_pair_decodes (config : CipherConfig) (code : N) :
  NoDup (notes config) ->
  forallb note_ok12 (notes config) = true ->
  code < N.of_nat (length (notes config)) * N.of_nat (length (notes config)) ->
  wf_unit code ->
  decodeBase12 config
    (join [SPACE]
       [ notes config !! N.to_nat (code / N.of_nat (length (notes config)));
         notes config !! N.to_nat (code mod N.of_nat (length (notes config))) ])
  = [code].
Proof.
  intros Hnd Hok Hcode Hwf. set (B := N.of_nat (length (notes config))) in *.
  apply forallb_Forall_true in Hok.
  assert (HB : B <> 0) by (intros E; rewrite E in Hcode; lia).
  assert (Hhi : code / B < B) by (now apply N.Div0.div_lt_upper_bound).
  assert (Hlo : code mod B < B) by (now apply N.mod_lt).
  destruct (lookup_lt_is_Some_2 (notes config) (N.to_nat (code / B))) as [th Hth];
    [unfold B in *; lia|].
  destruct (lookup_lt_is_Some_2 (notes config) (N.to_nat (code mod B))) as [tl Htl];
    [unfold B in *; lia|].
  destruct (note_ok12_parts th (Forall_lookup_1 _ _ _ _ Hok Hth)) as [Hth1 Hth2].
  destruct (note_ok12_parts tl (Forall_lookup_1 _ _ _ _ Hok Htl)) as [Htl1 Htl2].
  rewrite Hth, Htl. change [Some th; Some tl] with (List.map Some [th; tl]).
  assert (Htoks : Forall (fun t => is_token t = true) [th; tl])
    by now repeat constructor.
  destruct (join_tokens_tight th [tl] Htoks) as [Hs He].
  rewrite decodeBase12_lines, trim_tight by assumption.
  rewrite split_nl_no_newline by now apply count_nl_join_tokens.
  change (decodeLine12 config (join [SPACE] (List.map Some [th; tl])) = [code]).
  unfold decodeLine12.
  rewrite tokens12_join by (auto; discriminate). fold B. cbn [walk12 app].
  rewrite (unit12_numbers _ B th tl (N.of_nat (N.to_nat (code / B)))
             (N.of_nat (N.to_nat (code mod B)))).
  - rewrite !N2Nat.id, (N.mul_comm _ B), <- N.div_mod by exact HB.
    rewrite N.mod_small by exact Hwf. reflexivity.
  - now apply is_token_nonempty.
  - now apply is_token_nonempty.
  - now apply noteMap_get_note.
  - now apply noteMap_get_note.
Qed.

Lemma base12_pair_decodes_witness :
  decodeBase12 major8 (lit "G D") = lit "!".
Proof.
  assert (Hnd : NoDup (notes major8))
    by (apply (bool_decide_unpack _); vm_compute; exact I).
  apply (base12_pair_decodes major8 33 Hnd);
    [reflexivity | reflexivity | reflexivity].
Defined.

(** C7 as stated fails: distinct notes one of which contains a space do
    not come back as tokens; the pair for code 3 decodes to ["??"]. *)
Lemma base12_pair_needs_plain_notes :
  ~ (forall (config : CipherConfig) (code : N),
       NoDup (notes config) ->
       code < N.of_nat (length (notes config)) * N.of_nat (length (notes config)) ->
       wf_unit code ->
       decodeBase12 config
         (join [SPACE]
            [ notes config !! N.to_nat (code / N.of_nat (length (notes config)));
              notes config !! N.to_nat (code mod N.of_nat (length (notes config))) ])
       = [code]).
Proof.
  intros H.
  assert (Hnd : NoDup (notes spaced2))
    by (apply (bool_decide_unpack _); vm_compute; exact I).
  specialize (H spaced2 3 Hnd eq_refl eq_refl). vm_compute in H. discriminate.
Qed.

Lemma tokens8_cons_ws (c : N) (s : jsstring) :
  is_ws c = true -> tokens8 (c :: s) = tokens8 s.
Proof. intros Hc. unfold tokens8. now rewrite trim_cons_ws. Qed.

Lemma tokens8_snoc_ws (s : jsstring) (c : N) :
  starts_tight s = true -> is_ws c = true -> tokens8 (s ++ [c]) = tokens8 s.
Proof. intros Hs Hc. unfold tokens8. now rewrite trim_snoc_ws. Qed.

(** C8, as amended: when the notes are pairwise distinct, number at least
    eight, and the first two, which are the ones that ["A"] and ["B"] use,
    are non-empty strings without whitespace other than ["/"] and
    ["__proto__"], encoding ["A B"] with [encodeBase8] and decoding the
    space-joined result with [decodeBase8] gives ["A B"], and likewise
    ["A\nB"] gives ["A\nB"]; for every configuration, with no condition
    on its notes, a single space is encoded as the one token ["/"], and the
    token ["/"] decodes to a space. *)
Theorem base8_space_newline_fidelity (config : CipherConfig) :
  (NoDup (notes config) ->
   (8 <= length (notes config))%nat ->
   forallb note_ok (take 2 (notes config)) = true ->
   decodeBase8 config (join [SPACE] (encodeBase8 config (lit "A B"))) = lit "A B"
   /\ decodeBase8 config
        (join [SPACE] (encodeBase8 config (lit "A" ++ [NEWLINE] ++ lit "B")))
      = lit "A" ++ [NEWLINE] ++ lit "B")
  /\ encodeBase8 config [SPACE] = [Some [SLASH]]
  /\ decodeBase8 config [SLASH] = [SPACE].
Proof.
  split; [|split; reflexivity].
  intros Hnd Hlen Hok. apply forallb_Forall_true in Hok.
  set (nm := build_noteMap config).
  destruct (lookup_lt_is_Some_2 (notes config) 0) as [t0 Ht0]; [lia|].
  destruct (lookup_lt_is_Some_2 (notes config) 1) as [t1 Ht1]; [lia|].
  assert (Hok0 : note_ok t0 = true).
  { apply (Forall_lookup_1 _ _ 0%nat t0 Hok). now rewrite lookup_take_lt by lia. }
  assert (Hok1 : note_ok t1 = true).
  { apply (Forall_lookup_1 _ _ 1%nat t1 Hok). now rewrite lookup_take_lt by lia. }
  apply note_ok_parts in Hok0 as (Htok0 & Hslash0 & Hproto0).
  apply note_ok_parts in Hok1 as (Htok1 & Hslash1 & Hproto1).
  pose proof (is_token_nonempty t0 Htok0) as Hne0.
  pose proof (is_token_nonempty t1 Htok1) as Hne1.
  assert (Hg0 : noteMap_get nm t0 = JNum 0)
    by exact (noteMap_get_note config 0 t0 Hnd Ht0 Hproto0).
  assert (Hg1 : noteMap_get nm t1 = JNum 1)
    by exact (noteMap_get_note config 1 t1 Hnd Ht1 Hproto1).
  assert (HA : forall rest out,
             walk8 nm (t0 :: t0 :: rest) out = walk8 nm rest (out ++ [65])).
  { intros rest out.
    now rewrite (walk8_pair_letter nm t0 t0 rest out 0 0) by (auto; reflexivity). }
  assert (HB : forall rest out,
             walk8 nm (t0 :: t1 :: rest) out = walk8 nm rest (out ++ [66])).
  { intros rest out.
    now rewrite (walk8_pair_letter nm t0 t1 rest out 0 1) by (auto; reflexivity). }
  assert (Hpair0 : Forall (fun t => is_token t = true) [t0; t0])
    by now repeat constructor.
  assert (Hpair1 : Forall (fun t => is_token t = true) [t0; t1])
    by now repeat constructor.
  split.
  - change (encodeBase8 config (lit "A B"))
      with [notes config !! 0%nat; notes config !! 0%nat; Some [SLASH];
            notes config !! 0%nat; notes config !! 1%nat].
    rewrite Ht0, Ht1.
    change [Some t0; Some t0; Some [SLASH]; Some t0; Some t1]
      with (List.map Some [t0; t0; [SLASH]; t0; t1]).
    rewrite decode_joined_tokens by now repeat constructor.
    fold nm. rewrite HA, walk8_slash, HB. reflexivity.
  - change (encodeBase8 config (lit "A" ++ [NEWLINE] ++ lit "B"))
      with [notes config !! 0%nat; notes config !! 0%nat; Some [NEWLINE];
            notes config !! 0%nat; notes config !! 1%nat].
    rewrite Ht0, Ht1.
    replace (join [SPACE] [Some t0; Some t0; Some [NEWLINE]; Some t0; Some t1])
      with ((join [SPACE] (List.map Some [t0; t0]) ++ [SPACE])
            ++ NEWLINE :: SPACE :: join [SPACE] (List.map Some [t0; t1]))
      by (simpl; now rewrite <- !app_assoc).
    pose proof (count_nl_join_tokens _ Hpair0) as Hnl0.
    pose proof (count_nl_join_tokens _ Hpair1) as Hnl1.
    pose proof (proj1 (join_tokens_tight t0 [t0] Hpair0)) as Htight.
    pose proof (tokens8_join _ Hpair0) as Hsplit0.
    pose proof (tokens8_join _ Hpair1) as Hsplit1.
    set (J0 := join [SPACE] (List.map Some [t0; t0])) in *.
    set (J1 := join [SPACE] (List.map Some [t0; t1])) in *.
    rewrite decodeBase8_lines, split_nl_app
      by (rewrite count_nl_app, Hnl0; reflexivity).
    rewrite split_nl_no_newline
      by (change (SPACE :: J1) with ([SPACE] ++ J1);
          rewrite count_nl_app, Hnl1; reflexivity).
    unfold join_lines, decodeLine8. cbn [List.map join elem_text].
    rewrite tokens8_snoc_ws, tokens8_cons_ws, Hsplit0, Hsplit1
      by (reflexivity || exact Htight).
    fold nm. rewrite HA, HB. reflexivity.
Qed.

Lemma base8_space_newline_fidelity_witness :
  decodeBase8 major8 (join [SPACE] (encodeBase8 major8 (lit "A B"))) = lit "A B"
  /\ decodeBase8 major8
       (join [SPACE] (encodeBase8 major8 (lit "A" ++ [NEWLINE] ++ lit "B")))
     = lit "A" ++ [NEWLINE] ++ lit "B".
Proof.
  assert (Hnd : NoDup (notes major8))
    by (apply (bool_decide_unpack _); vm_compute; exact I).
  apply (proj1 (base8_space_newline_fidelity major8) Hnd); [simpl; lia | reflexivity].
Defined.

(** C8 as stated fails: with eight distinct notes of which the first is
    ["/"], ["A B"] is encoded as five tokens that decode to four spaces
    and a ['?']. *)
Lemma base8_fidelity_needs_plain_notes :
  ~ (forall config : CipherConfig,
       NoDup (notes config) -> (8 <= length (notes config))%nat ->
       decodeBase8 config (join [SPACE] (encodeBase8 config (lit "A B"))) = lit "A B").
Proof.
  intros H.
  assert (Hnd : NoDup (notes slash8))
    by (apply (bool_decide_unpack _); vm_compute; exact I).
  specialize (H slash8 Hnd). vm_compute in H.
  assert (Hlen : (8 <= 8)%nat) by lia. specialize (H Hlen). discriminate.
Qed.

(** C1 as stated fails: with eight distinct notes of which the first is
    ["/"], the letter ["A"] is encoded as two ["/"] tokens, which decode to
    two spaces. *)
Lemma base8_round_trip_needs_plain_notes :
  ~ (forall (config : CipherConfig) (s : jsstring),
       NoDup (notes config) -> (8 <= length (notes config))%nat ->
       forallb is_letter s = true ->
       decodeBase8 config (join [SPACE] (encodeBase8 config s)) = toUpperCase s).
Proof.
  intros H.
  assert (Hnd : NoDup (notes slash8))
    by (apply (bool_decide_unpack _); vm_compute; exact I).
  assert (Hlen : (8 <= length (notes slash8))%nat) by (simpl; lia).
  specialize (H slash8 (lit "A") Hnd Hlen eq_refl). vm_compute in H. discriminate.
Qed.

(** Each condition on the notes is needed for the letter ["A"] to come
    back: an empty note leaves nothing to decode, a note with a space
    inside is read as two unknown tokens per symbol, and the note
    ["__proto__"] is never stored in the table. *)
Example empty_note_is_dropped :
  decodeBase8 empty8 (join [SPACE] (encodeBase8 empty8 (lit "A"))) = [].
Proof. vm_compute. reflexivity. Qed.

Example spaced_note_is_split :
  decodeBase8 inner8 (join [SPACE] (encodeBase8 inner8 (lit "A"))) = lit "??".
Proof. vm_compute. reflexivity. Qed.

Example proto_note_is_not_stored :
  decodeBase8 proto8 (join [SPACE] (encodeBase8 proto8 (lit "A"))) = lit "?".
Proof. vm_compute. reflexivity. Qed.

(* ===================================================================== *)
(** ** Further properties of the codecs *)
(* ===================================================================== *)

(** *** Lines are decoded one by one *)

Lemma split_nl_app_gen (a b : jsstring) :
  split_nl (a ++ NEWLINE :: b) = split_nl a ++ split_nl b.
Proof.
  induction a as [|c a IH]; [reflexivity|].
  cbn [app split_nl]. destruct (c =? NEWLINE); [now rewrite IH|].
  rewrite IH. pose proof (split_nl_nonempty a) as Hne.
  destruct (split_nl a); [congruence | reflexivity].
Qed.

Lemma join_lines_app (xs ys : list jsstring) :
  xs <> [] -> ys <> [] ->
  join_lines (xs ++ ys) = join_lines xs ++ NEWLINE :: join_lines ys.
Proof.
  intros Hx Hy. destruct xs as [|x xs]; [congruence|]. destruct ys as [|y ys]; [congruence|].
  cbn [app]. rewrite !join_lines_cons, List.map_app, concat_app.
  cbn [List.map concat]. now rewrite <- !app_assoc.
Qed.

Lemma decodeBase8_one_line (config : CipherConfig) (line : jsstring) :
  count_nl line = 0%nat -> decodeBase8 config line = decodeLine8 config line.
Proof.
  intros H. rewrite decodeBase8_lines, split_nl_no_newline by exact H. reflexivity.
Qed.

Lemma decodeBase8_cons_ws (config : CipherConfig) (c : N) (s : jsstring) :
  is_ws c = true -> c <> NEWLINE ->
  decodeBase8 config (c :: s) = decodeBase8 config s.
Proof.
  intros Hc Hn. rewrite !decodeBase8_lines. cbn [split_nl].
  rewrite (proj2 (N.eqb_neq c NEWLINE) Hn).
  pose proof (split_nl_nonempty s) as Hne.
  destruct (split_nl s) as [|l ls]; [congruence|].
  cbn [List.map]. unfold decodeLine8 at 1. now rewrite tokens8_cons_ws.
Qed.

Lemma decodeBase8_app_nl (config : CipherConfig) (a b : jsstring) :
  decodeBase8 config (a ++ NEWLINE :: b)
  = decodeBase8 config a ++ NEWLINE :: decodeBase8 config b.
Proof.
  rewrite !decodeBase8_lines, split_nl_app_gen, List.map_app.
  apply join_lines_app; intros E; apply map_eq_nil in E;
    now apply split_nl_nonempty in E.
Qed.

(** X4: [decodeBase8] decodes the lines of its input independently: the
    output for two texts put together with a newline is the two outputs
    put together with a newline. *)
Theorem decodeBase8_lines_independent (config : CipherConfig) (a b : jsstring) :
  decodeBase8 config (a ++ NEWLINE :: b)
  = decodeBase8 config a ++ NEWLINE :: decodeBase8 config b.
Proof. apply decodeBase8_app_nl. Qed.

(** *** Letters, spaces and newlines through the encoder and back *)

Lemma join_app (sep : jsstring) (xs ys : list (option jsstring)) :
  xs <> [] -> ys <> [] ->
  join sep (xs ++ ys) = join sep xs ++ sep ++ join sep ys.
Proof.
  intros Hx Hy. destruct xs as [|x xs]; [congruence|]. destruct ys as [|y ys]; [congruence|].
  cbn [app]. rewrite !join_cons, List.map_app, concat_app.
  cbn [List.map concat]. now rewrite <- !app_assoc.
Qed.

Lemma join_around_newline (xs ys : list (option jsstring)) :
  join [SPACE] (xs ++ Some [NEWLINE] :: ys)
  = match xs with [] => [] | _ :: _ => join [SPACE] xs ++ [SPACE] end
    ++ NEWLINE :: match ys with [] => [] | _ :: _ => SPACE :: join [SPACE] ys end.
Proof.
  destruct xs as [|x xs].
  - destruct ys as [|y ys]; [reflexivity|].
    change ([] ++ Some [NEWLINE] :: y :: ys) with ([Some [NEWLINE]] ++ y :: ys).
    now rewrite join_app.
  - rewrite join_app by discriminate. rewrite <- app_assoc. f_equal. f_equal.
    destruct ys as [|y ys]; [reflexivity|].
    change (Some [NEWLINE] :: y :: ys) with ([Some [NEWLINE]] ++ y :: ys).
    now rewrite join_app.
Qed.

Section PlainRoundTrip.

Variable config : CipherConfig.
Hypothesis Hdistinct : NoDup (notes config).
Hypothesis Hlen : (8 <= length (notes config))%nat.
Hypothesis Hok : Forall (fun t => note_ok t = true) (take 8 (notes config)).

Lemma encode_words (a : jsstring) :
  Forall (fun c => is_letter c = true \/ c = SPACE) a ->
  exists toks,
    encodeBase8 config a = List.map Some toks
    /\ Forall (fun t => is_token t = true) toks
    /\ forall out, walk8 (build_noteMap config) toks out = out ++ toUpperCase a.
Proof.
  induction 1 as [|c a Hc _ (toks & Henc & Htok & Hwalk)].
  - exists []. repeat split; [constructor | intros out; simpl; now rewrite app_nil_r].
  - change (c :: a) with ([c] ++ a). rewrite encodeBase8_app, Henc.
    destruct Hc as [Hc | ->].
    + destruct (walk8_letter config Hdistinct Hlen Hok c toks Hc)
        as (th & tl & Hch & Hth & Htl & Hstep).
      exists (th :: tl :: toks). repeat split.
      * rewrite encodeBase8_concat. simpl. now rewrite Hch.
      * now repeat constructor.
      * intros out. rewrite Hstep, Hwalk. simpl. now rewrite <- app_assoc.
    + exists ([SLASH] :: toks). repeat split.
      * now repeat constructor.
      * intros out. rewrite walk8_slash, Hwalk. simpl. now rewrite <- app_assoc.
Qed.

Lemma decode_words_then_space (toks : list jsstring) :
  Forall (fun t => is_token t = true) toks ->
  decodeBase8 config
    match List.map Some toks with
    | [] => []
    | _ :: _ => join [SPACE] (List.map Some toks) ++ [SPACE]
    end
  = walk8 (build_noteMap config) toks [].
Proof.
  intros Htok. destruct toks as [|t toks]; [reflexivity|].
  cbn [List.map]. change (Some t :: List.map Some toks) with (List.map Some (t :: toks)).
  rewrite decodeBase8_one_line
    by (rewrite count_nl_app, count_nl_join_tokens by exact Htok; reflexivity).
  unfold decodeLine8.
  rewrite tokens8_snoc_ws by (reflexivity || now apply join_tokens_tight).
  now rewrite tokens8_join.
Qed.

Lemma plain_round_trip_from (s : jsstring) :
  Forall (fun c => is_plain c = true) s ->
  forall a,
    Forall (fun c => is_letter c = true \/ c = SPACE) a ->
    decodeBase8 config (join [SPACE] (encodeBase8 config (a ++ s)))
    = toUpperCase a ++ toUpperCase s.
Proof.
  induction 1 as [|c s Hc _ IH]; intros a Ha.
  - rewrite app_nil_r. destruct (encode_words a Ha) as (toks & Henc & Htok & Hwalk).
    rewrite Henc, (decode_joined_tokens config toks Htok), Hwalk.
    cbn [toUpperCase List.map app]. now rewrite app_nil_r.
  - destruct (N.eq_dec c NEWLINE) as [-> | Hnl].
    + destruct (encode_words a Ha) as (toks & Henc & Htok & Hwalk).
      change (a ++ NEWLINE :: s) with (a ++ [NEWLINE] ++ s).
      rewrite !encodeBase8_app, Henc.
      change (encodeBase8 config [NEWLINE]) with [Some [NEWLINE]].
      cbn [app]. rewrite join_around_newline, decodeBase8_app_nl.
      rewrite (decode_words_then_space toks Htok), Hwalk.
      cbn [app toUpperCase List.map]. f_equal. f_equal.
      specialize (IH [] ltac:(constructor)). cbn [app toUpperCase List.map] in IH.
      destruct (encodeBase8 config s) as [|y ys] eqn:E; [exact IH|].
      rewrite decodeBase8_cons_ws by (reflexivity || discriminate). exact IH.
    + replace (a ++ c :: s) with ((a ++ [c]) ++ s) by now rewrite <- app_assoc.
      rewrite IH.
      * unfold toUpperCase. rewrite List.map_app, <- app_assoc. reflexivity.
      * apply Forall_app. split; [exact Ha|]. constructor; [|constructor].
        unfold is_plain in Hc. apply orb_true_iff in Hc as [Hc | Hc].
        -- apply orb_true_iff in Hc as [Hc | Hc]; [now left | right; now apply N.eqb_eq].
        -- apply N.eqb_eq in Hc. congruence.
Qed.

End PlainRoundTrip.

(** X1: when the notes are pairwise distinct, number at least eight, and
    each of the first eight is a non-empty string without whitespace other
    than ["/"] and ["__proto__"], every text of ASCII letters, spaces and
    newlines comes back in upper case from [decodeBase8] applied to the
    space-joined output of [encodeBase8]. *)
Theorem base8_plain_text_round_trip (config : CipherConfig) (text : jsstring) :
  NoDup (notes config) ->
  (8 <= length (notes config))%nat ->
  forallb note_ok (take 8 (notes config)) = true ->
  forallb is_plain text = true ->
  decodeBase8 config (join [SPACE] (encodeBase8 config text)) = toUpperCase text.
Proof.
  intros Hnd Hlen Hok Htext. apply forallb_Forall_true in Hok, Htext.
  exact (plain_round_trip_from config Hnd Hlen Hok text Htext [] ltac:(constructor)).
Qed.

Lemma base8_plain_text_round_trip_witness :
  decodeBase8 major8
    (join [SPACE] (encodeBase8 major8 (lit "Hi there" ++ [NEWLINE; NEWLINE] ++ lit " Zed ")))
  = lit "HI THERE" ++ [NEWLINE; NEWLINE] ++ lit " ZED ".
Proof.
  assert (Hnd : NoDup (notes major8))
    by (apply (bool_decide_unpack _); vm_compute; exact I).
  apply (base8_plain_text_round_trip major8
           (lit "Hi there" ++ [NEWLINE; NEWLINE] ++ lit " Zed ") Hnd);
    [simpl; lia | reflexivity | reflexivity].
Defined.

(** *** What the base-8 decoder can write *)

Lemma walk8_output_units (nm : gmap jsstring N) (tokens : list jsstring) :
  forall out,
    forallb is_output8 out = true -> forallb is_output8 (walk8 nm tokens out) = true.
Proof.
  assert (Hsnoc : forall out c, forallb is_output8 out = true -> is_output8 c = true ->
                                forallb is_output8 (out ++ [c]) = true).
  { intros out c Ho Hc. rewrite forallb_app, Ho. simpl. now rewrite Hc. }
  induction tokens as [|x|x y l IHl IHyl] using list_ind2; intros out Hout.
  - exact Hout.
  - cbn [walk8]. case_bool_decide; now apply Hsnoc.
  - destruct (decide (x = [SLASH])) as [Hx|Hx].
    { remember (y :: l) as r. cbn [walk8]. rewrite bool_decide_eq_true_2 by exact Hx.
      now apply IHyl, Hsnoc. }
    cbn [walk8]. rewrite bool_decide_eq_false_2 by exact Hx.
    destruct (falsy (Some x) || falsy (Some y)); [now apply Hsnoc|].
    destruct (is_undefined _ || is_undefined _); [now apply IHl, Hsnoc|].
    destruct (js_add _ _); try (now apply IHl, Hsnoc).
    destruct ((0 <=? n) && (n <? 26)) eqn:E; apply IHl, Hsnoc; auto.
    apply andb_true_iff in E as [_ E]. apply N.ltb_lt in E.
    cbn [fromCharCode]. rewrite N.mod_small by lia.
    unfold is_output8. apply orb_true_iff. right.
    apply andb_true_iff. split; apply N.leb_le; lia.
Qed.

(** X3: whatever the configuration and the input, the output of
    [decodeBase8] consists of spaces, question marks, newlines and the
    capital letters A to Z only. *)
Theorem decodeBase8_output_alphabet (config : CipherConfig) (noteStr : jsstring) :
  forallb is_output8 (decodeBase8 config noteStr) = true.
Proof.
  unfold decodeBase8.
  apply (forEach_invariant (fun out => forallb is_output8 out = true)); [|reflexivity].
  intros line li out Hout. apply walk8_output_units.
  destruct (0 <? li); [|exact Hout].
  rewrite forallb_app, Hout. reflexivity.
Qed.

(** *** The encoder, character by character *)

Lemma encode_char_upper (config : CipherConfig) (c : N) :
  encode_char config (upper_unit c) = encode_char config c.
Proof.
  unfold upper_unit at 1. destruct ((97 <=? c) && (c <=? 122)) eqn:E; [|reflexivity].
  apply andb_true_iff in E as [E1 E2]. apply N.leb_le in E1, E2.
  assert (Hc : is_letter c = true) by (apply is_letter_spec; lia).
  assert (Hu : is_letter (c - 32) = true) by (apply is_letter_spec; lia).
  destruct (encode_char_letter config c Hc) as (_ & _ & ->).
  destruct (encode_char_letter config (c - 32) Hu) as (_ & _ & ->).
  assert (Hidx : letter_index (c - 32) = letter_index c).
  { unfold letter_index, upper_unit.
    replace ((97 <=? c - 32) && (c - 32 <=? 122)) with false
      by (symmetry; apply andb_false_iff; left; apply N.leb_gt; lia).
    replace ((97 <=? c) && (c <=? 122)) with true
      by (symmetry; apply andb_true_iff; split; apply N.leb_le; lia).
    reflexivity. }
  now rewrite Hidx.
Qed.

Lemma encodeBase8_toUpperCase (config : CipherConfig) (text : jsstring) :
  encodeBase8 config (toUpperCase text) = encodeBase8 config text.
Proof.
  rewrite !encodeBase8_concat. unfold toUpperCase. rewrite List.map_map.
  f_equal. apply map_ext. intros c. apply encode_char_upper.
Qed.

(** X8: [encodeBase8] does not see the case of ASCII letters: a text and
    the text with its letters a to z turned into A to Z have the same
    encoding. *)
Theorem encodeBase8_ignores_case (config : CipherConfig) (text : jsstring) :
  encodeBase8 config (toUpperCase text) = encodeBase8 config text.
Proof. apply encodeBase8_toUpperCase. Qed.

(** X11: [encodeBase8] works character by character and keeps no state
    between characters: the encoding of two texts put together is the
    encodings put together, and a text of letters, spaces and newlines
    gives two elements for each letter and one for each space or newline. *)
Theorem encodeBase8_concatenation (config : CipherConfig) (a b : jsstring) :
  encodeBase8 config (a ++ b) = encodeBase8 config a ++ encodeBase8 config b
  /\ (forallb is_plain a = true ->
      length (encodeBase8 config a)
      = (2 * length (List.filter is_letter a)
         + length (List.filter (fun c => negb (is_letter c)) a))%nat).
Proof.
  split; [apply encodeBase8_app|].
  intros Ha. apply forallb_Forall_true in Ha. rewrite encodeBase8_concat.
  induction Ha as [|c a Hc _ IH]; [reflexivity|].
  cbn [List.map concat List.filter]. rewrite length_app, IH.
  destruct (is_letter c) eqn:El.
  - destruct (encode_char_letter config c El) as (_ & _ & ->). simpl. lia.
  - unfold is_plain in Hc. rewrite El in Hc. cbn [orb negb] in Hc |- *.
    apply orb_true_iff in Hc as [Hc | Hc]; apply N.eqb_eq in Hc; subst c; simpl; lia.
Qed.

Lemma encodeBase8_concatenation_witness :
  length (encodeBase8 major8 (lit "ab c")) = 7%nat.
Proof.
  destruct (encodeBase8_concatenation major8 (lit "ab c") []) as [_ H].
  exact (H eq_refl).
Defined.

(** *** Pairs of notes, with or without repeated notes *)

Lemma forEach_set_last (t : jsstring) (l : list jsstring) :
  t <> proto_key ->
  forall i (m : gmap jsstring N),
    forEach (fun note i m => noteMap_set m note i) l i m !! t
    = match last_index t l with
      | Some k => Some (i + N.of_nat k)
      | None => m !! t
      end.
Proof.
  intros Hp. induction l as [|x l IH]; intros i m; [reflexivity|].
  cbn [forEach last_index]. rewrite IH. destruct (last_index t l) as [k|].
  - f_equal. lia.
  - case_bool_decide as Hx.
    + subst x. rewrite noteMap_set_same by exact Hp. f_equal. lia.
    + apply noteMap_set_other. congruence.
Qed.

Lemma noteMap_get_last (config : CipherConfig) (t : jsstring) (k : nat) :
  t <> proto_key -> last_index t (notes config) = Some k ->
  noteMap_get (build_noteMap config) t = JNum (N.of_nat k).
Proof.
  intros Hp Hk. unfold noteMap_get, build_noteMap.
  now rewrite forEach_set_last, Hk by exact Hp.
Qed.

Lemma decodeBase12_joined_tokens (config : CipherConfig) (toks : list jsstring) :
  Forall (fun t => is_token t = true) toks -> toks <> [] ->
  decodeBase12 config (join [SPACE] (List.map Some toks))
  = walk12 (build_noteMap config) (N.of_nat (length (notes config))) toks [].
Proof.
  intros Htok Hne. destruct toks as [|t toks]; [congruence|].
  destruct (join_tokens_tight t toks Htok) as [Hs He].
  rewrite decodeBase12_lines, trim_tight by assumption.
  rewrite split_nl_no_newline by now apply count_nl_join_tokens.
  change (decodeLine12 config (join [SPACE] (List.map Some (t :: toks)))
          = walk12 (build_noteMap config) (N.of_nat (length (notes config))) (t :: toks) []).
  unfold decodeLine12. now rewrite tokens12_join.
Qed.

(** X6: for any notes, repeated or not, as long as their number [B] has
    [B*B <= 2^53], so that the products and sums of positions are exact
    numbers, [decodeBase12] reads a pair of tokens through the last
    position at which each of them stands in [config.notes]: the pair
    gives the one character with code [(a*B + b) mod 65536] for those
    positions [a] and [b]. *)
Theorem decodeBase12_pair_last_position (config : CipherConfig)
    (hi lo : jsstring) (a b : nat) :
  N.of_nat (length (notes config)) * N.of_nat (length (notes config)) <= 2 ^ 53 ->
  is_token hi = true -> is_token lo = true ->
  hi <> proto_key -> lo <> proto_key ->
  last_index hi (notes config) = Some a ->
  last_index lo (notes config) = Some b ->
  decodeBase12 config (hi ++ SPACE :: lo)
  = [(N.of_nat a * N.of_nat (length (notes config)) + N.of_nat b) mod 65536].
Proof.
  intros _ Hh Hl Hph Hpl Ha Hb.
  change (hi ++ SPACE :: lo) with (join [SPACE] (List.map Some [hi; lo])).
  rewrite decodeBase12_joined_tokens by (try discriminate; now repeat constructor).
  cbn [walk12 app].
  apply unit12_numbers;
    auto using is_token_nonempty, noteMap_get_last.
Qed.

Lemma decodeBase12_pair_last_position_witness :
  decodeBase12 {| notes := List.map lit ["C"; "D"; "C"; "E"]%string |} (lit "C D")
  = [9].
Proof.
  apply (decodeBase12_pair_last_position
           {| notes := List.map lit ["C"; "D"; "C"; "E"]%string |}
           (lit "C") (lit "D") 2 1);
    [vm_compute; discriminate | reflexivity | reflexivity | discriminate | discriminate
     | reflexivity | reflexivity].
Defined.

(** X7: for any notes, repeated or not, [decodeBase8] reads a pair of
    tokens whose first is not ["/"] through the last positions [a] and [b]
    of the two tokens in [config.notes]: the pair gives the letter number
    [a*8 + b] of the alphabet when that value is below 26, also when [b] is
    8 or more, and ['?'] otherwise. *)
Theorem decodeBase8_pair_last_position (config : CipherConfig)
    (hi lo : jsstring) (a b : nat) :
  is_token hi = true -> is_token lo = true ->
  hi <> [SLASH] -> hi <> proto_key -> lo <> proto_key ->
  last_index hi (notes config) = Some a ->
  last_index lo (notes config) = Some b ->
  decodeBase8 config (hi ++ SPACE :: lo)
  = [ if N.of_nat a * 8 + N.of_nat b <? 26
      then 65 + (N.of_nat a * 8 + N.of_nat b) else QUESTION ].
Proof.
  intros Hh Hl Hs Hph Hpl Ha Hb.
  change (hi ++ SPACE :: lo) with (join [SPACE] (List.map Some [hi; lo])).
  rewrite decode_joined_tokens by now repeat constructor.
  pose proof (noteMap_get_last config hi a Hph Ha) as Hga.
  pose proof (noteMap_get_last config lo b Hpl Hb) as Hgb.
  destruct (N.of_nat a * 8 + N.of_nat b <? 26) eqn:E.
  - apply N.ltb_lt in E.
    now rewrite (walk8_pair_letter _ hi lo [] [] _ _ Hs
                   (is_token_nonempty hi Hh) (is_token_nonempty lo Hl) Hga Hgb E).
  - apply N.ltb_ge in E.
    rewrite walk8_pair_placeholder; auto using is_token_nonempty.
    intros a' b' Ha' Hb'. rewrite Hga in Ha'. rewrite Hgb in Hb'.
    injection Ha' as <-. injection Hb' as <-. exact E.
Qed.

Lemma decodeBase8_pair_last_position_witness :
  decodeBase8 {| notes := List.map lit ["a"; "b"; "c"; "d"; "e"; "f"; "g"; "h"; "i"; "j"]%string |}
    (lit "b j")
  = lit "R".
Proof.
  apply (decodeBase8_pair_last_position
           {| notes := List.map lit ["a"; "b"; "c"; "d"; "e"; "f"; "g"; "h"; "i"; "j"]%string |}
           (lit "b") (lit "j") 1 9);
    [reflexivity | reflexivity | discriminate | discriminate | discriminate
     | reflexivity | reflexivity].
Defined.

(** *** A line of pairs through the base-N decoder *)

Section PairsRoundTrip.

Variable config : CipherConfig.
Hypothesis Hdistinct : NoDup (notes config).
Hypothesis Hok : Forall (fun t => note_ok12 t = true) (notes config).

Lemma pair_of_code_tokens (code : N) :
  code < N.of_nat (length (notes config)) * N.of_nat (length (notes config)) ->
  wf_unit code ->
  exists th tl,
    pair_of_code config code = [Some th; Some tl]
    /\ is_token th = true /\ is_token tl = true
    /\ unit12 (build_noteMap config) (N.of_nat (length (notes config)))
         (Some th) (Some tl) = [code].
Proof.
  intros Hcode Hwf. unfold pair_of_code.
  set (B := N.of_nat (length (notes config))) in *.
  assert (HB : B <> 0) by (intros E; rewrite E in Hcode; lia).
  assert (Hhi : code / B < B) by (now apply N.Div0.div_lt_upper_bound).
  assert (Hlo : code mod B < B) by (now apply N.mod_lt).
  destruct (lookup_lt_is_Some_2 (notes config) (N.to_nat (code / B))) as [th Hth];
    [unfold B in *; lia|].
  destruct (lookup_lt_is_Some_2 (notes config) (N.to_nat (code mod B))) as [tl Htl];
    [unfold B in *; lia|].
  destruct (note_ok12_parts th (Forall_lookup_1 _ _ _ _ Hok Hth)) as [Hth1 Hth2].
  destruct (note_ok12_parts tl (Forall_lookup_1 _ _ _ _ Hok Htl)) as [Htl1 Htl2].
  exists th, tl. rewrite Hth, Htl. repeat split; try assumption.
  rewrite (unit12_numbers _ B th tl (N.of_nat (N.to_nat (code / B)))
             (N.of_nat (N.to_nat (code mod B))));
    auto using is_token_nonempty, noteMap_get_note.
  rewrite !N2Nat.id, (N.mul_comm _ B), <- N.div_mod by exact HB.
  now rewrite N.mod_small by exact Hwf.
Qed.

Lemma pairs_walk (codes : list N) :
  Forall (fun code =>
            code < N.of_nat (length (notes config)) * N.of_nat (length (notes config))
            /\ wf_unit code) codes ->
  exists toks,
    concat (List.map (pair_of_code config) codes) = List.map Some toks
    /\ Forall (fun t => is_token t = true) toks
    /\ length toks = (2 * length codes)%nat
    /\ forall out,
         walk12 (build_noteMap config) (N.of_nat (length (notes config))) toks out
         = out ++ codes.
Proof.
  induction 1 as [|code codes [Hcode Hwf] _ (toks & Henc & Htok & Hlen & Hwalk)].
  - exists []. repeat split; [constructor | intros out; simpl; now rewrite app_nil_r].
  - destruct (pair_of_code_tokens code Hcode Hwf) as (th & tl & Hp & Hth & Htl & Hu).
    exists (th :: tl :: toks). repeat split.
    + cbn [List.map concat]. now rewrite Hp, Henc.
    + now repeat constructor.
    + simpl. lia.
    + intros out. rewrite walk12_pair, Hu, Hwalk. now rewrite <- app_assoc.
Qed.

End PairsRoundTrip.

(** X10: when the [B] notes are pairwise distinct, non-empty strings
    without whitespace, none of them ["__proto__"], [decodeBase12] turns a
    line made of the pairs [notes[c div B], notes[c mod B]] of a non-empty
    sequence of character codes below [B*B], joined by spaces, back into
    the string of those characters. *)
Theorem base12_line_of_pairs_decodes (config : CipherConfig) (codes : list N) :
  NoDup (notes config) ->
  forallb note_ok12 (notes config) = true ->
  codes <> [] ->
  Forall (fun code =>
            code < N.of_nat (length (notes config)) * N.of_nat (length (notes config))
            /\ wf_unit code) codes ->
  decodeBase12 config (join [SPACE] (concat (List.map (pair_of_code config) codes)))
  = codes.
Proof.
  intros Hnd Hok Hne Hcodes. apply forallb_Forall_true in Hok.
  destruct (pairs_walk config Hnd Hok codes Hcodes) as (toks & Henc & Htok & Hlen & Hwalk).
  rewrite Henc, decodeBase12_joined_tokens, Hwalk; [reflexivity | exact Htok |].
  intros ->. destruct codes; [congruence | discriminate].
Qed.

Lemma base12_line_of_pairs_decodes_witness :
  decodeBase12 major8 (lit "B D B C H H") = lit "10?".
Proof.
  assert (Hnd : NoDup (notes major8))
    by (apply (bool_decide_unpack _); vm_compute; exact I).
  assert (Hsmall : Forall (fun code => code < 8 * 8 /\ wf_unit code) (lit "10?"))
    by (repeat constructor; unfold wf_unit; lia).
  exact (base12_line_of_pairs_decodes major8 (lit "10?") Hnd eq_refl
           ltac:(discriminate) Hsmall).
Defined.

(** *** A character of the octal branch does not come back *)

(** X2: when the notes are pairwise distinct, number at least eight, and
    each of the first eight is a non-empty string without whitespace other
    than ["/"] and ["__proto__"], a character that is no letter, space or
    newline and has a code below 512 never comes back from its own
    encoding: [decodeBase8] reads the first two octal digits as one pair,
    which gives the letter number [code div 8] when that is below 26 and
    ['?'] otherwise, and then meets the third digit alone, which gives
    ['?']. *)
Theorem base8_octal_char_decodes_to_two (config : CipherConfig) (ch : N) :
  NoDup (notes config) ->
  (8 <= length (notes config))%nat ->
  forallb note_ok (take 8 (notes config)) = true ->
  octal_path ch = true -> ch < 512 ->
  decodeBase8 config (join [SPACE] (encodeBase8 config [ch]))
  = [ if ch / 8 <? 26 then 65 + ch / 8 else QUESTION; QUESTION ].
Proof.
  intros Hnd Hlen Hok Hpath Hch. apply forallb_Forall_true in Hok.
  unfold octal_path in Hpath. apply negb_true_iff in Hpath.
  apply orb_false_iff in Hpath as [Hpath Hl]. apply orb_false_iff in Hpath as [Hs Hn].
  apply N.eqb_neq in Hs, Hn.
  rewrite encodeBase8_concat. cbn [List.map concat]. rewrite app_nil_r.
  rewrite encode_char_octal by assumption.
  assert (H0 : ch / 64 < 8) by (apply N.Div0.div_lt_upper_bound; lia).
  assert (H1 : (ch / 8) mod 8 < 8) by (apply N.mod_lt; lia).
  assert (H2 : ch mod 8 < 8) by (apply N.mod_lt; lia).
  destruct (first8_lookup config Hlen Hok (N.to_nat (ch / 64))) as (t0 & Ht0 & Hok0); [lia|].
  destruct (first8_lookup config Hlen Hok (N.to_nat ((ch / 8) mod 8)))
    as (t1 & Ht1 & Hok1); [lia|].
  destruct (first8_lookup config Hlen Hok (N.to_nat (ch mod 8))) as (t2 & Ht2 & Hok2); [lia|].
  apply note_ok_parts in Hok0 as (Htok0 & Hslash0 & Hproto0).
  apply note_ok_parts in Hok1 as (Htok1 & Hslash1 & Hproto1).
  apply note_ok_parts in Hok2 as (Htok2 & Hslash2 & Hproto2).
  rewrite Ht0, Ht1, Ht2.
  assert (Htoks : Forall (fun t => is_token t = true) [t0; t1; t2])
    by now repeat constructor.
  replace (join [SPACE] [Some t0; Some t1; Some t2; None])
    with (join [SPACE] (List.map Some [t0; t1; t2]) ++ [SPACE])
    by (cbn [join List.map elem_text]; repeat (rewrite <- app_assoc; cbn [app]);
        reflexivity).
  rewrite decodeBase8_one_line
    by (rewrite count_nl_app, count_nl_join_tokens by exact Htoks; reflexivity).
  unfold decodeLine8.
  rewrite tokens8_snoc_ws by (reflexivity || now apply join_tokens_tight).
  rewrite tokens8_join by exact Htoks.
  pose proof (noteMap_get_note config _ t0 Hnd Ht0 Hproto0) as Hg0.
  pose proof (noteMap_get_note config _ t1 Hnd Ht1 Hproto1) as Hg1.
  rewrite !N2Nat.id in Hg0, Hg1.
  assert (Hval : ch / 64 * 8 + (ch / 8) mod 8 = ch / 8).
  { change 64 with (8 * 8). rewrite <- N.Div0.div_div, (N.mul_comm _ 8).
    symmetry. apply N.div_mod. lia. }
  destruct (ch / 8 <? 26) eqn:E.
  - apply N.ltb_lt in E.
    rewrite (walk8_pair_letter _ t0 t1 [t2] [] _ _ Hslash0
               (is_token_nonempty t0 Htok0) (is_token_nonempty t1 Htok1) Hg0 Hg1)
      by (rewrite Hval; exact E).
    rewrite walk8_single by exact Hslash2. now rewrite Hval.
  - apply N.ltb_ge in E.
    rewrite walk8_pair_placeholder; auto using is_token_nonempty.
    + now rewrite walk8_single by exact Hslash2.
    + intros a b Ha Hb. rewrite Hg0 in Ha. rewrite Hg1 in Hb.
      injection Ha as <-. injection Hb as <-. now rewrite Hval.
Qed.

Lemma base8_octal_char_decodes_to_two_witness :
  decodeBase8 major8 (join [SPACE] (encodeBase8 major8 (lit "!"))) = lit "E?".
Proof.
  assert (Hnd : NoDup (notes major8))
    by (apply (bool_decide_unpack _); vm_compute; exact I).
  apply (base8_octal_char_decodes_to_two major8 33 Hnd);
    [simpl; lia | reflexivity | reflexivity | reflexivity].
Defined.

(** *** Blanks around and inside the input of the base-N decoder *)

Lemma trimStart_app_blank (w s : jsstring) :
  forallb is_ws w = true -> trimStart (w ++ s) = trimStart s.
Proof.
  induction w as [|c w IH]; [reflexivity|]. simpl. intros H.
  apply andb_true_iff in H as [Hc Hw]. rewrite Hc. now apply IH.
Qed.

Lemma trimEnd_app_blank (s w : jsstring) :
  forallb is_ws w = true -> trimEnd (s ++ w) = trimEnd s.
Proof.
  intros Hw. unfold trimEnd. rewrite rev_app_distr, trimStart_app_blank; [reflexivity|].
  now rewrite forallb_rev.
Qed.

Lemma trimStart_app_not_blank (s t : jsstring) :
  forallb is_ws s = false -> trimStart (s ++ t) = trimStart s ++ t.
Proof.
  induction s as [|c s IH]; [discriminate|]. simpl. intros H.
  destruct (is_ws c); [now apply IH | reflexivity].
Qed.

Lemma trim_surrounded (w1 s w2 : jsstring) :
  forallb is_ws w1 = true -> forallb is_ws w2 = true ->
  trim (w1 ++ s ++ w2) = trim s.
Proof.
  intros H1 H2. unfold trim. rewrite trimStart_app_blank by exact H1.
  destruct (forallb is_ws s) eqn:E.
  - rewrite trimStart_app_blank by exact E.
    now rewrite (trimStart_blank w2), (trimStart_blank s).
  - rewrite trimStart_app_not_blank by exact E. now apply trimEnd_app_blank.
Qed.

(** X5: [decodeBase12] trims its whole input first, so whitespace before
    and after the text, blank lines included, does not change the
    result. *)
Theorem decodeBase12_ignores_surrounding_blanks (config : CipherConfig)
    (w1 noteStr w2 : jsstring) :
  forallb is_ws w1 = true -> forallb is_ws w2 = true ->
  decodeBase12 config (w1 ++ noteStr ++ w2) = decodeBase12 config noteStr.
Proof.
  intros H1 H2. now rewrite !decodeBase12_lines, trim_surrounded.
Qed.

Lemma decodeBase12_ignores_surrounding_blanks_witness :
  decodeBase12 major8 ([NEWLINE; SPACE] ++ lit "G D" ++ [9; NEWLINE; NEWLINE])
  = decodeBase12 major8 (lit "G D").
Proof.
  apply (decodeBase12_ignores_surrounding_blanks major8
           [NEWLINE; SPACE] (lit "G D") [9; NEWLINE; NEWLINE]);
    reflexivity.
Defined.

(** X12: for texts that begin and end with a character that is not
    whitespace, [decodeBase12] decodes two texts put together with a
    newline as the two outputs put together with a newline; an empty line
    between them is decoded as one ['?']. *)
Theorem decodeBase12_lines_and_blank_line (config : CipherConfig) (a b : jsstring) :
  starts_tight a = true -> ends_tight a = true ->
  starts_tight b = true -> ends_tight b = true ->
  decodeBase12 config (a ++ NEWLINE :: b)
  = decodeBase12 config a ++ NEWLINE :: decodeBase12 config b
  /\ decodeBase12 config (a ++ NEWLINE :: NEWLINE :: b)
     = decodeBase12 config a ++ [NEWLINE; QUESTION; NEWLINE] ++ decodeBase12 config b.
Proof.
  intros Hsa Hea Hsb Heb.
  assert (Hne : forall s, List.map (decodeLine12 config) (split_nl s) <> []).
  { intros s E. apply map_eq_nil in E. now apply split_nl_nonempty in E. }
  rewrite !decodeBase12_lines.
  rewrite (trim_tight a), (trim_tight b) by assumption.
  change (a ++ NEWLINE :: NEWLINE :: b) with (a ++ [NEWLINE; NEWLINE] ++ b).
  change (a ++ NEWLINE :: b) with (a ++ [NEWLINE] ++ b).
  assert (Htrim : forall mid, trim (a ++ mid ++ b) = a ++ mid ++ b).
  { intros mid. apply trim_tight; [now apply starts_tight_app|].
    rewrite app_assoc. now apply ends_tight_app. }
  rewrite (Htrim [NEWLINE]), (Htrim [NEWLINE; NEWLINE]).
  split.
  - cbn [app]. rewrite split_nl_app_gen, List.map_app. now apply join_lines_app.
  - change (a ++ [NEWLINE; NEWLINE] ++ b) with (a ++ NEWLINE :: [] ++ NEWLINE :: b).
    rewrite !split_nl_app_gen, !List.map_app.
    rewrite join_lines_app; [|apply Hne|].
    + rewrite join_lines_app; [reflexivity | discriminate | apply Hne].
    + intros E. apply app_eq_nil in E as [E _]. discriminate.
Qed.

Lemma decodeBase12_lines_and_blank_line_witness :
  decodeBase12 major8 (lit "G D" ++ NEWLINE :: NEWLINE :: lit "H H")
  = lit "!" ++ [NEWLINE; QUESTION; NEWLINE] ++ lit "?".
Proof.
  apply (decodeBase12_lines_and_blank_line major8 (lit "G D") (lit "H H"));
    reflexivity.
Defined.

(** *** Where the encoder leaves an undefined element *)

Lemma octal_digits_length (k : nat) :
  forall fuel n acc,
    (k < fuel)%nat -> n < 8 ^ N.of_nat (S k) -> k = 0%nat \/ 8 ^ N.of_nat k <= n ->
    length (octal_digits fuel n acc) = (length acc + S k)%nat.
Proof.
  induction k as [|k IH]; intros fuel n acc Hfuel Hup Hlow;
    (destruct fuel as [|f]; [lia|]); cbn [octal_digits].
  - change (8 ^ N.of_nat 1) with 8 in Hup.
    rewrite N.div_small by exact Hup. simpl. lia.
  - destruct Hlow as [Hk | Hlow]; [discriminate|].
    rewrite !Nat2N.inj_succ, !N.pow_succ_r' in Hup.
    rewrite Nat2N.inj_succ, N.pow_succ_r' in Hlow.
    assert (Hpos : 0 < 8 ^ N.of_nat k) by (apply N.neq_0_lt_0, N.pow_nonzero; lia).
    assert (Hq1 : 8 ^ N.of_nat k <= n / 8) by (apply N.div_le_lower_bound; lia).
    assert (Hq2 : n / 8 < 8 ^ N.of_nat (S k)).
    { rewrite Nat2N.inj_succ, N.pow_succ_r'. apply N.Div0.div_lt_upper_bound. exact Hup. }
    replace (n / 8 =? 0) with false
      by (symmetry; apply N.eqb_neq; revert Hq1 Hpos; generalize (n / 8); intros; lia).
    rewrite (IH f (n / 8)); [simpl; lia | lia | exact Hq2 | right; exact Hq1].
Qed.

Lemma toString8_length (n : N) (k : nat) :
  n < 8 ^ N.of_nat (S k) -> k = 0%nat \/ 8 ^ N.of_nat k <= n ->
  length (toString8 n) = S k.
Proof.
  intros Hup Hlow. unfold toString8.
  rewrite (octal_digits_length k); [reflexivity | | exact Hup | exact Hlow].
  destruct Hlow as [-> | Hlow]; [lia|].
  assert (Hn : 0 < n).
  { apply N.lt_le_trans with (8 ^ N.of_nat k); [|exact Hlow].
    apply N.neq_0_lt_0, N.pow_nonzero. lia. }
  assert (Hlog : N.of_nat k <= N.log2 n).
  { apply N.le_trans with (3 * N.of_nat k); [lia|].
    apply N.log2_le_pow2; [exact Hn|].
    rewrite N.pow_mul_r. exact Hlow. }
  lia.
Qed.

Lemma padStart3_length_parity (ch : N) :
  wf_unit ch ->
  Nat.odd (length (padStart3 (toString8 ch))) = odd_octal ch.
Proof.
  unfold wf_unit, odd_octal, padStart3. intros Hwf. rewrite length_app, repeat_length.
  destruct (N.lt_ge_cases ch 8) as [H1|H1].
  { rewrite (toString8_length ch 0) by (auto; exact H1).
    replace (ch <? 512) with true by (symmetry; apply N.ltb_lt; lia). reflexivity. }
  destruct (N.lt_ge_cases ch 64) as [H2|H2].
  { rewrite (toString8_length ch 1) by (auto; exact H2).
    replace (ch <? 512) with true by (symmetry; apply N.ltb_lt; lia). reflexivity. }
  destruct (N.lt_ge_cases ch 512) as [H3|H3].
  { rewrite (toString8_length ch 2) by (auto; exact H3).
    replace (ch <? 512) with true by (symmetry; apply N.ltb_lt; lia). reflexivity. }
  replace (ch <? 512) with false by (symmetry; apply N.ltb_ge; lia).
  destruct (N.lt_ge_cases ch 4096) as [H4|H4].
  { rewrite (toString8_length ch 3) by (auto; exact H4).
    replace (4096 <=? ch) with false by (symmetry; apply N.leb_gt; lia). reflexivity. }
  replace (4096 <=? ch) with true by (symmetry; apply N.leb_le; lia).
  destruct (N.lt_ge_cases ch 32768) as [H5|H5].
  { rewrite (toString8_length ch 4) by (auto; exact H5).
    replace (ch <? 32768) with true by (symmetry; apply N.ltb_lt; lia). reflexivity. }
  rewrite (toString8_length ch 5) by (auto; change (8 ^ N.of_nat 6) with 262144; lia).
  replace (ch <? 32768) with false by (symmetry; apply N.ltb_ge; lia). reflexivity.
Qed.

Lemma padStart3_digits (ch : N) :
  forallb (fun d => (48 <=? d) && (d <=? 55)) (padStart3 (toString8 ch)) = true.
Proof.
  unfold padStart3. rewrite forallb_app, (proj2 (toString8_value ch)), andb_true_r.
  generalize (3 - length (toString8 ch))%nat. intros k.
  induction k as [|k IH]; [reflexivity | exact IH].
Qed.

Section Undefined.

Variable config : CipherConfig.
Hypothesis Hlen : (8 <= length (notes config))%nat.

Lemma digit_note_defined (d : N) :
  (48 <=? d) && (d <=? 55) = true ->
  exists t, note_at config (parseInt8 (Some d)) = Some t.
Proof.
  intros Hd. unfold parseInt8. rewrite Hd. cbn [note_at].
  apply andb_true_iff in Hd as [H1 H2]. apply N.leb_le in H1, H2.
  apply lookup_lt_is_Some_2. lia.
Qed.

Lemma octal_chunks_undefined (oct : jsstring) :
  forallb (fun d => (48 <=? d) && (d <=? 55)) oct = true ->
  has_undefined (octal_chunks config oct) = Nat.odd (length oct).
Proof.
  induction oct as [|h|h l r IH _] using list_ind2; intros Hd.
  - reflexivity.
  - cbn [forallb] in Hd. apply andb_true_iff in Hd as [Hh _].
    destruct (digit_note_defined h Hh) as [t Ht].
    cbn [octal_chunks]. now rewrite Ht.
  - cbn [forallb] in Hd. apply andb_true_iff in Hd as [Hh Hd].
    apply andb_true_iff in Hd as [Hl Hd].
    destruct (digit_note_defined h Hh) as [t Ht].
    destruct (digit_note_defined l Hl) as [u Hu].
    cbn [octal_chunks]. rewrite Ht, Hu.
    cbn [has_undefined existsb orb]. fold (has_undefined (octal_chunks config r)).
    now rewrite IH.
Qed.

Lemma encode_char_undefined (ch : N) :
  wf_unit ch ->
  has_undefined (encode_char config ch) = octal_path ch && odd_octal ch.
Proof.
  intros Hwf. unfold octal_path.
  destruct (ch =? SPACE) eqn:Es.
  { apply N.eqb_eq in Es. now subst ch. }
  destruct (ch =? NEWLINE) eqn:En.
  { apply N.eqb_eq in En. now subst ch. }
  destruct (is_letter ch) eqn:El; cbn [orb negb andb].
  - destruct (encode_char_letter config ch El) as (Hidx & _ & ->).
    assert (Hhi : letter_index ch / 8 < 4) by (apply N.Div0.div_lt_upper_bound; lia).
    assert (Hlo : letter_index ch mod 8 < 8) by (apply N.mod_lt; lia).
    destruct (lookup_lt_is_Some_2 (notes config) (N.to_nat (letter_index ch / 8)))
      as [t Ht]; [lia|].
    destruct (lookup_lt_is_Some_2 (notes config) (N.to_nat (letter_index ch mod 8)))
      as [u Hu]; [lia|].
    now rewrite Ht, Hu.
  - unfold encode_char. rewrite Es, En, El.
    rewrite octal_chunks_undefined by apply padStart3_digits.
    now apply padStart3_length_parity.
Qed.

Lemma encodeBase8_undefined (text : jsstring) :
  Forall wf_unit text ->
  has_undefined (encodeBase8 config text)
  = existsb (fun ch => octal_path ch && odd_octal ch) text.
Proof.
  intros Hwf. rewrite encodeBase8_concat.
  induction Hwf as [|ch text Hch _ IH]; [reflexivity|].
  cbn [List.map concat existsb]. unfold has_undefined in *.
  rewrite existsb_app, IH. f_equal. now apply encode_char_undefined.
Qed.

End Undefined.

(** X9: with at least eight notes, the array that [encodeBase8] returns
    holds an [undefined] element exactly when the text has a character
    that is no letter, space or newline and whose code is below 512 or
    from 4096 to 32767: those are the codes with an odd number of octal
    digits after padding. *)
Theorem encodeBase8_undefined_elements (config : CipherConfig) (text : jsstring) :
  (8 <= length (notes config))%nat ->
  forallb (fun ch => ch <? 65536) text = true ->
  has_undefined (encodeBase8 config text)
  = existsb (fun ch => octal_path ch && odd_octal ch) text.
Proof.
  intros Hlen Hwf. apply encodeBase8_undefined; [exact Hlen|].
  apply forallb_Forall_true in Hwf. eapply Forall_impl; [exact Hwf|].
  intros ch Hch. now apply N.ltb_lt in Hch.
Qed.

Lemma encodeBase8_undefined_elements_witness :
  has_undefined (encodeBase8 major8 (lit "a b" ++ [1000; 40000])) = false
  /\ has_undefined (encodeBase8 major8 (lit "a b" ++ [5000])) = true.
Proof.
  split.
  - apply (encodeBase8_undefined_elements major8 (lit "a b" ++ [1000; 40000]));
      [simpl; lia | reflexivity].
  - apply (encodeBase8_undefined_elements major8 (lit "a b" ++ [5000]));
      [simpl; lia | reflexivity].
Defined.

(** *** The amount of whitespace does not matter to the base-8 decoder *)

Lemma filter_flush (cur : jsstring) (rest : list jsstring) :
  List.filter nonempty (cur :: rest) = flush cur ++ List.filter nonempty rest.
Proof. destruct cur; reflexivity. Qed.

Lemma split_ws_words (s : jsstring) :
  forall cur b, b = false \/ cur = [] ->
    List.filter nonempty (prefix_piece cur (split_ws_from b s)) = words_from cur s.
Proof.
  induction s as [|c r IH]; intros cur b Hb.
  - simpl. rewrite app_nil_r. now destruct cur.
  - cbn [split_ws_from words_from]. destruct (is_ws c).
    + destruct b.
      * destruct Hb as [Hb | ->]; [discriminate|]. now rewrite IH by auto.
      * cbn [prefix_piece]. rewrite app_nil_r, filter_flush. f_equal.
        rewrite <- (IH [] true) by auto.
        pose proof (split_ws_from_nonempty true r) as Hne.
        destruct (split_ws_from true r); [congruence | reflexivity].
    + rewrite <- (IH (cur ++ [c]) false) by auto.
      pose proof (split_ws_from_nonempty false r) as Hne.
      destruct (split_ws_from false r); [congruence|].
      cbn [prefix_piece]. now rewrite <- app_assoc.
Qed.

Lemma words_from_cons_ws (c : N) (s : jsstring) :
  is_ws c = true -> words_from [] (c :: s) = words_from [] s.
Proof. intros Hc. cbn [words_from]. now rewrite Hc. Qed.

Lemma words_from_snoc_ws (s : jsstring) (w : N) :
  is_ws w = true -> forall cur, words_from cur (s ++ [w]) = words_from cur s.
Proof.
  intros Hw. induction s as [|c s IH]; intros cur.
  - cbn [app words_from]. rewrite Hw. apply app_nil_r.
  - cbn [app words_from]. destruct (is_ws c); now rewrite IH.
Qed.

Lemma words_from_trimStart (s : jsstring) :
  words_from [] (trimStart s) = words_from [] s.
Proof.
  induction s as [|c s IH]; [reflexivity|].
  cbn [trimStart]. destruct (is_ws c) eqn:E; [|reflexivity].
  now rewrite words_from_cons_ws.
Qed.

Lemma words_from_trimEnd (s : jsstring) :
  forall cur, words_from cur (trimEnd s) = words_from cur s.
Proof.
  induction s as [|c s IH] using rev_ind; intros cur; [reflexivity|].
  destruct (is_ws c) eqn:E.
  - now rewrite trimEnd_snoc_ws, words_from_snoc_ws, IH.
  - unfold trimEnd. rewrite rev_app_distr. cbn [rev app trimStart]. rewrite E.
    cbn [rev]. now rewrite rev_involutive.
Qed.

Lemma tokens8_words (line : jsstring) : tokens8 line = words_from [] line.
Proof.
  unfold tokens8, split_ws, trim.
  rewrite <- words_from_trimStart, <- (words_from_trimEnd (trimStart line)).
  rewrite <- (split_ws_words _ [] false) by auto.
  pose proof (split_ws_from_nonempty false (trimEnd (trimStart line))) as Hne.
  destruct (split_ws_from false (trimEnd (trimStart line))); [congruence | reflexivity].
Qed.

Lemma words_insert_before_blank (w : N) (y : jsstring) :
  is_ws w = true -> starts_tight y = false ->
  forall x cur, words_from cur (x ++ w :: y) = words_from cur (x ++ y).
Proof.
  intros Hw Hy. induction x as [|c x IH]; intros cur.
  - cbn [app words_from]. rewrite Hw. destruct y as [|v y]; [apply app_nil_r|].
    cbn [starts_tight] in Hy. apply negb_false_iff in Hy.
    cbn [words_from]. now rewrite Hy.
  - cbn [app words_from]. destruct (is_ws c); now rewrite IH.
Qed.

Lemma words_replace_blank (w v : N) (y : jsstring) :
  is_ws w = true -> is_ws v = true ->
  forall x cur, words_from cur (x ++ w :: y) = words_from cur (x ++ v :: y).
Proof.
  intros Hw Hv. induction x as [|c x IH]; intros cur.
  - cbn [app words_from]. now rewrite Hw, Hv.
  - cbn [app words_from]. destruct (is_ws c); now rewrite IH.
Qed.

Lemma words_insert (w : N) (x y : jsstring) :
  is_ws w = true -> ends_tight x && starts_tight y = false ->
  words_from [] (x ++ w :: y) = words_from [] (x ++ y).
Proof.
  intros Hw Hxy. apply andb_false_iff in Hxy as [Hx | Hy];
    [|now apply words_insert_before_blank].
  destruct x as [|c x _] using rev_ind.
  - now apply words_from_cons_ws.
  - unfold ends_tight in Hx. rewrite rev_app_distr in Hx. cbn [rev app starts_tight] in Hx.
    apply negb_false_iff in Hx. rewrite <- !app_assoc. cbn [app].
    rewrite (words_insert_before_blank c (w :: y)) by (auto; simpl; now rewrite Hw).
    rewrite (words_replace_blank w c y) by assumption. reflexivity.
Qed.

Lemma split_nl_line_prefix (q y : jsstring) :
  count_nl q = 0%nat ->
  split_nl (q ++ y) = prefix_piece q (split_nl y).
Proof.
  unfold count_nl. induction q as [|c q IH]; intros Hq.
  - cbn [app]. pose proof (split_nl_nonempty y). now destruct (split_nl y).
  - cbn [app split_nl]. simpl in Hq. destruct (c =? NEWLINE); [discriminate|].
    rewrite IH by exact Hq. pose proof (split_nl_nonempty y).
    destruct (split_nl y); [congruence | reflexivity].
Qed.

Lemma split_nl_head_blank (y : jsstring) :
  starts_tight y = false ->
  match split_nl y with h :: _ => starts_tight h = false | [] => True end.
Proof.
  destruct y as [|v y]; [reflexivity|]. cbn [starts_tight split_nl]. intros Hv.
  destruct (v =? NEWLINE); [reflexivity|].
  pose proof (split_nl_nonempty y). now destruct (split_nl y).
Qed.

Lemma ends_tight_snoc (p : jsstring) (c : N) : ends_tight (p ++ [c]) = negb (is_ws c).
Proof. unfold ends_tight. now rewrite rev_app_distr. Qed.

Lemma ends_tight_after_newline (p x : jsstring) :
  ends_tight (p ++ NEWLINE :: x) = ends_tight x.
Proof.
  destruct x as [|c x _] using rev_ind.
  - now rewrite ends_tight_snoc.
  - change (p ++ NEWLINE :: x ++ [c]) with (p ++ (NEWLINE :: x) ++ [c]).
    now rewrite app_assoc, !ends_tight_snoc.
Qed.

Lemma decodeBase8_insert_blank_from (config : CipherConfig) (w : N) (y : jsstring) :
  is_ws w = true -> w <> NEWLINE ->
  forall x p,
    count_nl p = 0%nat ->
    ends_tight (p ++ x) && starts_tight y = false ->
    decodeBase8 config (p ++ x ++ w :: y) = decodeBase8 config (p ++ x ++ y).
Proof.
  intros Hw Hn. induction x as [|c x IH]; intros p Hp Hxy.
  - cbn [app] in *. rewrite app_nil_r in Hxy.
    change (p ++ w :: y) with (p ++ [w] ++ y). rewrite app_assoc.
    rewrite !decodeBase8_lines, !split_nl_line_prefix;
      [|exact Hp | rewrite count_nl_snoc; auto].
    pose proof (split_nl_nonempty y) as Hne.
    assert (Hhead := split_nl_head_blank y).
    destruct (split_nl y) as [|h rest]; [congruence|].
    cbn [prefix_piece List.map]. f_equal. f_equal.
    unfold decodeLine8. rewrite !tokens8_words, <- app_assoc. cbn [app]. f_equal.
    apply words_insert; [exact Hw|].
    apply andb_false_iff in Hxy as [Hx | Hy]; apply andb_false_iff; auto.
  - destruct (N.eq_dec c NEWLINE) as [-> | Hc].
    + cbn [app]. rewrite !decodeBase8_app_nl. f_equal. f_equal.
      apply (IH [] eq_refl). cbn [app]. now rewrite ends_tight_after_newline in Hxy.
    + replace (p ++ (c :: x) ++ w :: y) with ((p ++ [c]) ++ x ++ w :: y)
        by now rewrite <- app_assoc.
      replace (p ++ (c :: x) ++ y) with ((p ++ [c]) ++ x ++ y)
        by now rewrite <- app_assoc.
      apply IH; [now rewrite count_nl_snoc|].
      now rewrite <- app_assoc.
Qed.

(** X13: [decodeBase8] does not see how much whitespace separates the
    tokens of a line: a whitespace character other than a newline that is
    put at the start or the end of a line, or next to a whitespace
    character, does not change the output. *)
Theorem decodeBase8_ignores_extra_blanks (config : CipherConfig)
    (x y : jsstring) (w : N) :
  is_ws w = true -> w <> NEWLINE ->
  ends_tight x && starts_tight y = false ->
  decodeBase8 config (x ++ w :: y) = decodeBase8 config (x ++ y).
Proof.
  intros Hw Hn Hxy.
  exact (decodeBase8_insert_blank_from config w y Hw Hn x [] eq_refl Hxy).
Qed.

Lemma decodeBase8_ignores_extra_blanks_witness :
  decodeBase8 major8 (lit "C D " ++ 9 :: lit "/ C H")
  = decodeBase8 major8 (lit "C D " ++ lit "/ C H").
Proof.
  apply (decodeBase8_ignores_extra_blanks major8 (lit "C D ") (lit "/ C H") 9);
    [reflexivity | discriminate | reflexivity].
Defined.

(** *** Which texts share an encoding *)

(** X14: when the notes are pairwise distinct, number at least eight, and
    each of the first eight is a non-empty string without whitespace other
    than ["/"] and ["__proto__"], two texts of ASCII letters, spaces and
    newlines have the same encoding under [encodeBase8] exactly when they
    are equal up to the case of their letters. *)
Theorem encodeBase8_same_encoding_iff (config : CipherConfig) (s1 s2 : jsstring) :
  NoDup (notes config) ->
  (8 <= length (notes config))%nat ->
  forallb note_ok (take 8 (notes config)) = true ->
  forallb is_plain s1 = true -> forallb is_plain s2 = true ->
  encodeBase8 config s1 = encodeBase8 config s2 <-> toUpperCase s1 = toUpperCase s2.
Proof.
  intros Hnd Hlen Hok H1 H2. apply forallb_Forall_true in Hok, H1, H2. split.
  - intros Henc.
    pose proof (plain_round_trip_from config Hnd Hlen Hok s1 H1 [] ltac:(constructor)) as R1.
    pose proof (plain_round_trip_from config Hnd Hlen Hok s2 H2 [] ltac:(constructor)) as R2.
    cbn [app toUpperCase List.map] in R1, R2. fold (toUpperCase s1) in R1.
    fold (toUpperCase s2) in R2. rewrite <- R1, <- R2. now rewrite Henc.
  - intros Hup.
    rewrite <- (encodeBase8_toUpperCase config s1), <- (encodeBase8_toUpperCase config s2).
    now rewrite Hup.
Qed.

Lemma encodeBase8_same_encoding_iff_witness :
  encodeBase8 major8 (lit "Ab c") = encodeBase8 major8 (lit "aB C").
Proof.
  assert (Hnd : NoDup (notes major8))
    by (apply (bool_decide_unpack _); vm_compute; exact I).
  apply (encodeBase8_same_encoding_iff major8 (lit "Ab c") (lit "aB C") Hnd);
    [simpl; lia | reflexivity | reflexivity | reflexivity | reflexivity].
Defined.
